(** * reviewdog: the parsers of [parser.go]

    A shallow embedding of package [reviewdog]'s parser layer: the factory
    [NewParser] and the three [Parse] methods (errorformat scanner adapter,
    checkstyle XML flattener, rdjsonl line decoder), followed by the
    properties the specification states about them.

    Go values are modelled as follows.
    - [string] and [[]byte] are [string] (a sequence of bytes); [int] and
      [int32] are [Z], the conversion [int32(x)] is written out as [int32].
    - A slice is a [list]; the nil slice and the empty slice are both [[]].
    - A pointer to a struct that the code always allocates is the struct; a
      pointer field that may be nil is an [option].
    - [(T, error)] results are pairs whose second component is
      [option error], [None] being Go's nil error.
    - The packages this file imports and whose code is not part of the
      repository sources (encoding/xml, encoding/json, errorformat, fmts) are
      parameters of the development; bufio's line scanner and the fragment of
      fmt.Sprintf that is used are modelled. *)

From Stdlib Require Import ZArith Lia Ascii.
From stdpp Require Import base option list strings pretty gmap.

(** ** Bytes *)

(** '\n' and '\r'. *)
Definition LF : ascii := "010"%char.
Definition CR : ascii := "013"%char.
(** The double quote, for the JSON and XML texts of the examples. *)
Definition DQ : ascii := "034"%char.

(** ** Package fmt: the verbs of [Sprintf] this package uses *)

Module fmt.

(** An operand of a formatting call: the package passes strings and ints. *)
Inductive operand :=
| str (s : string)
| int (n : Z).

Definition type_name (a : operand) : string :=
  match a with
  | str _ => "string"
  | int _ => "int"
  end.

(** [%v]: a string as it is, an int in decimal with a leading minus sign. *)
Definition default_format (a : operand) : string :=
  match a with
  | str s => s
  | int n => pretty n
  end.

(** One verb applied to one operand.  The verbs modelled are [v], [s] and
    [d], without flags or width; the package's one call of [Sprintf] uses [v]
    and [d].  A verb that does not fit the operand's type prints Go's
    [%!verb(type=value)], and so does here any verb that is not modelled. *)
Definition verb (c : ascii) (a : operand) : string :=
  if decide (c = "v"%char) then default_format a
  else match a with
       | str s =>
           if decide (c = "s"%char) then s
           else "%!" +:+ String c ("(string=" +:+ s +:+ ")")
       | int n =>
           if decide (c = "d"%char) then pretty n
           else "%!" +:+ String c ("(int=" +:+ pretty n +:+ ")")
       end.

(** Operands left over when the format is used up: [%!(EXTRA type=value, ...)]. *)
Fixpoint extra_list (a : list operand) : string :=
  match a with
  | [] => ""
  | [x] => type_name x +:+ "=" +:+ default_format x
  | x :: a' => type_name x +:+ "=" +:+ default_format x +:+ ", " +:+ extra_list a'
  end.

Definition extra (a : list operand) : string :=
  match a with
  | [] => ""
  | _ => "%!(EXTRA " +:+ extra_list a +:+ ")"
  end.

(** [fmt.Sprintf(format, a...)]: literal bytes are copied, [%%] is a percent
    sign, [%c] formats the next operand with verb [c]. *)
Fixpoint Sprintf (format : string) (a : list operand) : string :=
  match format with
  | EmptyString => extra a
  | String c rest =>
      if decide (c = "%"%char) then
        match rest with
        | EmptyString => "%!(NOVERB)" +:+ extra a
        | String v rest' =>
            if decide (v = "%"%char) then String "%" (Sprintf rest' a)
            else match a with
                 | [] => "%!" +:+ String v ("(MISSING)" +:+ Sprintf rest' [])
                 | x :: a' => verb v x +:+ Sprintf rest' a'
                 end
        end
      else String c (Sprintf rest a)
  end.

End fmt.

(** ** Errors *)

(** Go's [error] values, by the call that makes them. *)
Inductive error :=
| errors_New (text : string)
    (** [errors.New(text)] *)
| fmt_Errorf (format : string) (a : list fmt.operand)
    (** [fmt.Errorf(format, a...)], kept unformatted *)
| library_error (pkg text : string).
    (** an error made by one of the imported packages (io, encoding/xml,
        encoding/json, errorformat) *)

#[global] Instance operand_eq_dec : EqDecision fmt.operand.
Proof. solve_decision. Defined.
#[global] Instance error_eq_dec : EqDecision error.
Proof. solve_decision. Defined.

(** The errors of [NewParser], named as the specification's taxonomy does. *)
Definition ConfigurationConflict : error :=
  errors_New "you cannot specify both format name and errorformat at the same time".
Definition UnsupportedFormat (name : string) : error :=
  fmt_Errorf
    "%q is not supported. consider to add new errorformat to https://github.com/reviewdog/errorformat"
    [fmt.str name].
Definition EmptyFormat : error :=
  errors_New "errorformat is empty".

(** ** Package io: a reader *)

Module io.

(** An [io.Reader] over a finite stream: it delivers [data] and then reports
    how the stream ends, [None] for [io.EOF] and [Some e] for a read error.  A
    stream that fails mid-way is one whose [data] stops where the failure
    occurs.  The end is reported by a read of its own, after the last byte (as
    os.File, bytes.Reader and strings.Reader do). *)
Record Reader := {
  data : string;
  err : option error;
}.

(** A reader over a complete stream, as [strings.NewReader(s)]. *)
Definition NewReader (s : string) : Reader := {| data := s; err := None |}.

End io.

(** ** Package rdf: the canonical diagnostic *)

Module rdf.

(** Modelled from the spec: the message types of [proto/rdf], which are not
    among the sources.  The specification gives them as
    Location{Path, Range{Start{Line, Column}, End?}}, Message, and optional
    extension fields that pass through opaquely; message-typed fields are
    pointers. [extensions] holds the extension fields (severity, code, ...) by
    name, uninterpreted. *)
Record Position := {
  Position_Line : Z;
  Position_Column : Z;
}.

Record Range := {
  Range_Start : option Position;
  Range_End : option Position;
}.

Record Location := {
  Location_Path : string;
  Location_Range : option Range;
}.

Record Diagnostic := {
  Diagnostic_Message : string;
  Diagnostic_Location : option Location;
  Diagnostic_extensions : list (string * string);
}.

End rdf.

(** Modelled from the spec: [CheckResult], declared in a file of the package
    that is not among the sources, pairs one diagnostic with the raw lines it
    came from.  [parser.go] sets these two fields and no other. *)
Record CheckResult := {
  Diagnostic : rdf.Diagnostic;
  Lines : list string;
}.

(** The conversion [int32(x)] of an [int]: the low 32 bits, read as a signed
    number. *)
Definition int32 (x : Z) : Z := ((x + 2 ^ 31) `mod` 2 ^ 32 - 2 ^ 31)%Z.

(** Diagnostic{Path, Start.Line, Start.Column, Message} as the specification
    writes it: a location with a start position, no end position and no
    extension field.  The parsers below spell the literal out as the source
    does; the theorems compare their output with this. *)
Definition located (path : string) (line col : Z) (message : string) : rdf.Diagnostic :=
  {| rdf.Diagnostic_Message := message;
     rdf.Diagnostic_Location := Some
       {| rdf.Location_Path := path;
          rdf.Location_Range := Some
            {| rdf.Range_Start := Some
                 {| rdf.Position_Line := line; rdf.Position_Column := col |};
               rdf.Range_End := None |} |};
     rdf.Diagnostic_extensions := [] |}.

(** ** Package bufio: the line scanner *)

Module bufio.

(** [bufio.MaxScanTokenSize = 64 * 1024]: the largest buffer a scanner made by
    [NewScanner] grows to. *)
Definition MaxScanTokenSize : N := 65536.

Definition ErrTooLong : error := errors_New "bufio.Scanner: token too long".

(** [data[0:n]] and [data[n:]], the bound clipped to the length. *)
Fixpoint take (n : N) (data : string) : string :=
  match data with
  | EmptyString => EmptyString
  | String c rest => if decide (n = 0%N) then EmptyString else String c (take (N.pred n) rest)
  end.

Fixpoint drop (n : N) (data : string) : string :=
  match data with
  | EmptyString => EmptyString
  | String c rest => if decide (n = 0%N) then data else drop (N.pred n) rest
  end.

(** [len(data) < n]. *)
Fixpoint shorter (data : string) (n : N) : bool :=
  match data with
  | EmptyString => bool_decide (0 < n)%N
  | String _ rest => if decide (n = 0%N) then false else shorter rest (N.pred n)
  end.

(** [i := bytes.IndexByte(data, c)] as the two slices it is used for:
    [(data[0:i], Some data[i+1:])] when [c] occurs, [(data, None)] when it
    does not. *)
Fixpoint cut (c : ascii) (data : string) : string * option string :=
  match data with
  | EmptyString => (EmptyString, None)
  | String b rest =>
      if decide (b = c) then (EmptyString, Some rest)
      else let '(before, after) := cut c rest in (String b before, after)
  end.

(** [dropCR] drops a terminal '\r' from the data. *)
Fixpoint dropCR (data : string) : string :=
  match data with
  | EmptyString => EmptyString
  | String c EmptyString => if decide (c = CR) then EmptyString else data
  | String c rest => String c (dropCR rest)
  end.

(** The split function [ScanLines(data, atEOF)].  Go returns
    [(advance, token, err)] with [err] always nil; here [Some (token, rest)]
    is a token together with [data[advance:]], and [None] is the request for
    more data [(0, nil, nil)]. *)
Definition ScanLines (data : string) (atEOF : bool) : option (string * string) :=
  if atEOF && bool_decide (data = EmptyString) then None
  else match cut LF data with
       | (line, Some rest) => Some (dropCR line, rest)
       | (_, None) => if atEOF then Some (dropCR data, EmptyString) else None
       end.

(** A [Scanner] reading lines.  [pending] is the part of the stream not yet
    consumed (buffered or still to be read), [rerr] how the reader ends,
    [tok] the last token, [err] what [Err()] reports once [Scan] has returned
    false. *)
Record Scanner := {
  pending : string;
  rerr : option error;
  maxTokenSize : N;
  tok : string;
  err : option error;
}.

Definition NewScanner (r : io.Reader) : Scanner :=
  {| pending := io.data r; rerr := io.err r;
     maxTokenSize := MaxScanTokenSize; tok := EmptyString; err := None |}.

(** [Scan()] advances the scanner to the next token.  Go's loop over its
    buffer, the reader and the split function comes to this:
    - the buffer grows up to [maxTokenSize] bytes, and the split function is
      given what it holds of the pending stream, the [window];
    - once the reader has reported its end, with EOF or with an error alike,
      the split function is called with [atEOF] set, so that it can return
      what remains as a last token; the end is reached when the rest of the
      stream leaves room in the buffer;
    - with a token, [Scan] returns true and advances past it;
    - with no token after the end of the stream, [Scan] returns false, and
      [Err()] is the reader's error, nil for EOF;
    - with no token in a full buffer, [Scan] returns false, and [Err()] is
      [ErrTooLong]. *)
Definition Scan (s : Scanner) : bool * Scanner :=
  let window := take (maxTokenSize s) (pending s) in
  let atEOF := shorter (pending s) (maxTokenSize s) in
  match ScanLines window atEOF with
  | Some (token, rest) =>
      (true, {| pending := rest +:+ drop (maxTokenSize s) (pending s);
                rerr := rerr s; maxTokenSize := maxTokenSize s;
                tok := token; err := err s |})
  | None =>
      (false, {| pending := pending s; rerr := rerr s;
                 maxTokenSize := maxTokenSize s; tok := EmptyString;
                 err := if atEOF then rerr s else Some ErrTooLong |})
  end.

(** [Bytes()] and [Text()]: the last token, as bytes and as a string. *)
Definition Bytes (s : Scanner) : string := tok s.
Definition Text (s : Scanner) : string := tok s.
Definition Err (s : Scanner) : option error := err s.

(** The tokens of [for s.Scan() { ... s.Text() ... }]: one per call that
    returns true, up to the first call that returns false. *)
Fixpoint tokens (fuel : nat) (s : Scanner) : list string :=
  match fuel with
  | O => []
  | S fuel' =>
      match Scan s with
      | (true, s') => Text s' :: tokens fuel' s'
      | (false, _) => []
      end
  end.

(** The lines of a stream as the scanner delivers them.  Every token consumes
    a byte, so one more call than there are bytes reaches the end. *)
Definition lines (r : io.Reader) : list string :=
  tokens (S (String.length (io.data r))) (NewScanner r).

End bufio.

(** ** Packages errorformat and fmts: what the parsers see of them *)

Module errorformat.

(** [errorformat.Entry], the fields [parser.go] reads. *)
Record Entry := {
  Filename : string;
  Lnum : Z;
  Col : Z;
  Text : string;
  Valid : bool;
  Lines : list string;
}.

End errorformat.

Module fmts.

(** [fmts.Fmt], an entry of the catalog of named errorformats. *)
Record Fmt := {
  Name : string;
  Errorformat : list string;
}.

End fmts.

(** ** Package reviewdog: [parser.go] *)

(** [ParserOpt] represents option to create Parser. *)
Record ParserOpt := {
  FormatName : string;
  Errorformat : list string;
}.

Module xml.

(** [xml.Name]. *)
Record Name := {
  Space : string;
  Local : string;
}.

End xml.

(** [CheckStyleError] represents
    <error line=.. column=.. severity=.. message=.. source=.. />. *)
Record CheckStyleError := {
  CheckStyleError_Column : Z;
  CheckStyleError_Line : Z;
  CheckStyleError_Message : string;
  CheckStyleError_Severity : string;
  CheckStyleError_Source : string;
}.

(** [CheckStyleFile] represents <file name=..><error ... />...</file>. *)
Record CheckStyleFile := {
  CheckStyleFile_Name : string;
  CheckStyleFile_Errors : list CheckStyleError;
}.

(** [CheckStyleResult] represents checkstyle XML result. *)
Record CheckStyleResult := {
  CheckStyleResult_XMLName : xml.Name;
  CheckStyleResult_Version : string;
  CheckStyleResult_Files : list CheckStyleFile;
}.

Section Parsers.

(** *** The imported packages *)

(** [*errorformat.Errorformat], a compiled list of pattern rules. *)
Variable errorformat_Errorformat : Type.

(** [errorformat.NewErrorformat(efms)]: compiles the rules or fails. *)
Variable errorformat_NewErrorformat :
  list string -> error + errorformat_Errorformat.

(** [s := efm.NewScanner(r)] followed by [for s.Scan() { e := s.Entry() }]:
    the entries the scanning engine yields on a stream, in scan order, up to
    the call of [Scan] that returns false. *)
Variable errorformat_Scan : errorformat_Errorformat -> io.Reader -> list errorformat.Entry.

(** [fmts.DefinedFmts()]: the catalog of named errorformats. *)
Variable fmts_DefinedFmts : gmap string fmts.Fmt.

(** [xml.NewDecoder(r).Decode(cs)] into a fresh [CheckStyleResult]. *)
Variable xml_Decode : io.Reader -> error + CheckStyleResult.

(** [json.Unmarshal(data, d)] into a fresh [rdf.Diagnostic]. *)
Variable json_Unmarshal : string -> error + rdf.Diagnostic.

(** *** Parsers *)

(** [ErrorformatParser] is errorformat parser. *)
Record ErrorformatParser := {
  efm : errorformat_Errorformat;
}.

(** A value of the interface [Parser]: nil, or a pointer to one of the three
    implementations.  A [*ErrorformatParser] may itself be a nil pointer
    inside a non-nil interface value. *)
Inductive Parser :=
| nil_Parser
| ErrorformatParser_ptr (p : option ErrorformatParser)
| CheckStyleParser_ptr
| RDJSONLParser_ptr.

(** [NewErrorformatParser] returns a new ErrorformatParser. *)
Definition NewErrorformatParser (efm : errorformat_Errorformat) : ErrorformatParser :=
  {| efm := efm |}.

(** [NewErrorformatParserString] returns a new ErrorformatParser from
    errorformat in string representation. *)
Definition NewErrorformatParserString (efms : list string)
  : option ErrorformatParser * option error :=
  match errorformat_NewErrorformat efms with
  | inl err => (None, Some err)
  | inr efm => (Some (NewErrorformatParser efm), None)
  end.

(** [NewCheckStyleParser] returns a new CheckStyleParser. *)
Definition NewCheckStyleParser : Parser := CheckStyleParser_ptr.

Definition NewRDJSONLParser : Parser := RDJSONLParser_ptr.

(** [NewParser] returns Parser based on ParserOpt.  [opt] is a pointer: the
    third component of the result is the [ParserOpt] it points to when the
    call returns. *)
Definition NewParser (opt : ParserOpt) : Parser * option error * ParserOpt :=
  let name := FormatName opt in
  if bool_decide (name <> "") && bool_decide (0 < length (Errorformat opt)) then
    (nil_Parser,
     Some (errors_New "you cannot specify both format name and errorformat at the same time"),
     opt)
  else if decide (name = "checkstyle") then (NewCheckStyleParser, None, opt)
  else if decide (name = "rdjsonl") then (NewRDJSONLParser, None, opt)
  else
    (* use defined errorformat *)
    let resolved : error + ParserOpt :=
      if bool_decide (name <> "") then
        match fmts_DefinedFmts !! name with
        | None =>
            inl (fmt_Errorf
                   "%q is not supported. consider to add new errorformat to https://github.com/reviewdog/errorformat"
                   [fmt.str name])
        | Some efm =>
            inr {| FormatName := FormatName opt; Errorformat := fmts.Errorformat efm |}
        end
      else inr opt in
    match resolved with
    | inl err => (nil_Parser, Some err, opt)
    | inr opt =>
        if bool_decide (length (Errorformat opt) = 0) then
          (nil_Parser, Some (errors_New "errorformat is empty"), opt)
        else
          let '(p, err) := NewErrorformatParserString (Errorformat opt) in
          (ErrorformatParser_ptr p, err, opt)
    end.

(** [ErrorformatParser.Parse], a method of the pointer type. *)
Definition ErrorformatParser_Parse (p : ErrorformatParser) (r : io.Reader)
  : list CheckResult * option error :=
  let rs :=
    foldl (fun rs e =>
             if errorformat.Valid e then
               rs ++ [ {| Diagnostic :=
                            {| rdf.Diagnostic_Location := Some
                                 {| rdf.Location_Path := errorformat.Filename e;
                                    rdf.Location_Range := Some
                                      {| rdf.Range_Start := Some
                                           {| rdf.Position_Line := int32 (errorformat.Lnum e);
                                              rdf.Position_Column := int32 (errorformat.Col e) |};
                                         rdf.Range_End := None |} |};
                               rdf.Diagnostic_Message := errorformat.Text e;
                               rdf.Diagnostic_extensions := [] |};
                          Lines := errorformat.Lines e |} ]
             else rs)
          [] (errorformat_Scan (efm p) r) in
  (rs, None).

(** [CheckStyleParser.Parse]. *)
Definition CheckStyleParser_Parse (r : io.Reader) : list CheckResult * option error :=
  match xml_Decode r with
  | inl err => ([], Some err)
  | inr cs =>
      let rs :=
        foldl (fun rs file =>
          foldl (fun rs cerr =>
            rs ++ [ {| Diagnostic :=
                         {| rdf.Diagnostic_Location := Some
                              {| rdf.Location_Path := CheckStyleFile_Name file;
                                 rdf.Location_Range := Some
                                   {| rdf.Range_Start := Some
                                        {| rdf.Position_Line := int32 (CheckStyleError_Line cerr);
                                           rdf.Position_Column := int32 (CheckStyleError_Column cerr) |};
                                      rdf.Range_End := None |} |};
                            rdf.Diagnostic_Message := CheckStyleError_Message cerr;
                            rdf.Diagnostic_extensions := [] |};
                       Lines :=
                         [ fmt.Sprintf "%v:%d:%d: %v: %v (%v)"
                             [ fmt.str (CheckStyleFile_Name file);
                               fmt.int (CheckStyleError_Line cerr);
                               fmt.int (CheckStyleError_Column cerr);
                               fmt.str (CheckStyleError_Severity cerr);
                               fmt.str (CheckStyleError_Message cerr);
                               fmt.str (CheckStyleError_Source cerr) ] ] |} ])
            rs (CheckStyleFile_Errors file))
          [] (CheckStyleResult_Files cs) in
      (rs, None)
  end.

(** The loop of [RDJSONLParser.Parse]: [for s.Scan() { ... }] with the
    results so far.  [None] is a loop cut short by [fuel]. *)
Fixpoint RDJSONLParser_loop (fuel : nat) (s : bufio.Scanner) (results : list CheckResult)
  : option (list CheckResult * option error) :=
  match fuel with
  | O => None
  | S fuel' =>
      match bufio.Scan s with
      | (true, s) =>
          match json_Unmarshal (bufio.Bytes s) with
          | inl err => Some ([], Some err)
          | inr d =>
              RDJSONLParser_loop fuel' s
                (results ++ [ {| Diagnostic := d; Lines := [bufio.Text s] |} ])
          end
      | (false, _) => Some (results, None)
      end
  end.

(** [RDJSONLParser.Parse].  Every round of the loop consumes a byte of the
    stream, so the fuel given here is never used up ([RDJSONLParser_Parse_total]). *)
Definition RDJSONLParser_Parse (r : io.Reader) : option (list CheckResult * option error) :=
  RDJSONLParser_loop (S (String.length (io.data r))) (bufio.NewScanner r) [].

(** What the loop does with the lines the scanner delivers, as a recursion
    over the list of lines: a line that does not decode ends the call with its
    error and no result, every other line adds one result.  The loop is shown
    to compute this ([RDJSONLParser_Parse_lines]). *)
Fixpoint RDJSONLParser_decode (lines : list string) (results : list CheckResult)
  : list CheckResult * option error :=
  match lines with
  | [] => (results, None)
  | line :: lines' =>
      match json_Unmarshal line with
      | inl err => ([], Some err)
      | inr d =>
          RDJSONLParser_decode lines'
            (results ++ [ {| Diagnostic := d; Lines := [line] |} ])
      end
  end.

(** What a call of [Parse] through the interface comes to: it returns, or it
    panics. *)
Inductive outcome :=
| Panic
| Return (results : list CheckResult) (err : option error).

(** [p.Parse(r)] for a value [p] of the interface [Parser]: the method of the
    parser it holds.  A nil interface value has no method to call, and
    [ErrorformatParser.Parse] reads [p.efm] through its receiver, so both the
    nil interface and a nil pointer in it panic with a nil pointer
    dereference.  [None] is the loop of the line-delimited parser cut short
    by its fuel. *)
Definition Parser_Parse (p : Parser) (r : io.Reader) : option outcome :=
  match p with
  | nil_Parser => Some Panic
  | ErrorformatParser_ptr None => Some Panic
  | ErrorformatParser_ptr (Some p) =>
      let '(rs, err) := ErrorformatParser_Parse p r in Some (Return rs err)
  | CheckStyleParser_ptr =>
      let '(rs, err) := CheckStyleParser_Parse r in Some (Return rs err)
  | RDJSONLParser_ptr =>
      match RDJSONLParser_Parse r with
      | Some (rs, err) => Some (Return rs err)
      | None => None
      end
  end.

End Parsers.

Arguments ErrorformatParser_Parse {_} _ _ _.
Arguments NewParser {_} _ _ _.
Arguments nil_Parser {_}.
Arguments CheckStyleParser_ptr {_}.
Arguments RDJSONLParser_ptr {_}.
Arguments ErrorformatParser_ptr {_} _.
Arguments efm {_} _.
Arguments Parser_Parse {_} _ _ _ _ _.

(** ** Streams made of lines *)

(** The stream that consists of the given lines, each followed by a line
    feed. *)
Fixpoint unlines (ls : list string) : string :=
  match ls with
  | [] => ""
  | l :: ls' => l +:+ String LF (unlines ls')
  end.

(** A line that the scanner delivers as it stands: no line feed inside, no
    carriage return at its end, and short enough for the scanner's buffer. *)
Definition fits (l : string) : bool :=
  bool_decide (bufio.cut LF l = (l, None))
  && bool_decide (bufio.dropCR l = l)
  && bufio.shorter l bufio.MaxScanTokenSize.

(** The stream that consists of the given lines, each followed by a carriage
    return and a line feed. *)
Fixpoint unlines_crlf (ls : list string) : string :=
  match ls with
  | [] => ""
  | l :: ls' => l +:+ String CR (String LF (unlines_crlf ls'))
  end.

(** The numbers of the int32 range. *)
Definition is_int32 (x : Z) : Prop := (- 2 ^ 31 <= x < 2 ^ 31)%Z.

(** ** Stand-ins for the imported packages, for the examples *)

Module sample.

(** One line feed. *)
Definition nl : string := String LF EmptyString.

(** A text between double quotes. *)
Definition quoted (s : string) : string := String DQ (s +:+ String DQ EmptyString).

(** A catalog with one of the entries of [fmts.DefinedFmts()]. *)
Definition golint : fmts.Fmt :=
  {| fmts.Name := "golint"; fmts.Errorformat := ["%f:%l:%c: %m"] |}.
Definition DefinedFmts : gmap string fmts.Fmt := {[ "golint" := golint ]}.

(** An engine that keeps the rules as they are and knows one line of tool
    output; on any other line it yields an entry that is not valid. *)
Definition NewErrorformat (efms : list string) : error + list string := inr efms.

Definition entry (line : string) : errorformat.Entry :=
  if decide (line = "main.go:10:2: missing return") then
    {| errorformat.Filename := "main.go"; errorformat.Lnum := 10;
       errorformat.Col := 2; errorformat.Text := "missing return";
       errorformat.Valid := true; errorformat.Lines := [line] |}
  else
    {| errorformat.Filename := ""; errorformat.Lnum := 0;
       errorformat.Col := 0; errorformat.Text := "";
       errorformat.Valid := false; errorformat.Lines := [line] |}.

Definition Scan (efm : list string) (r : io.Reader) : list errorformat.Entry :=
  entry <$> bufio.lines r.

(** The checkstyle document of the specification's example, and a decoder
    that knows this document only. *)
Definition document : string :=
  "<checkstyle><file name=" +:+ quoted "a.go" +:+ "><error line=" +:+ quoted "3"
  +:+ " column=" +:+ quoted "5" +:+ " severity=" +:+ quoted "error"
  +:+ " message=" +:+ quoted "unused var" +:+ " source=" +:+ quoted "lint/unused"
  +:+ "/></file></checkstyle>".

Definition tree : CheckStyleResult :=
  {| CheckStyleResult_XMLName := {| xml.Space := ""; xml.Local := "checkstyle" |};
     CheckStyleResult_Version := "";
     CheckStyleResult_Files :=
       [ {| CheckStyleFile_Name := "a.go";
            CheckStyleFile_Errors :=
              [ {| CheckStyleError_Column := 5; CheckStyleError_Line := 3;
                   CheckStyleError_Message := "unused var";
                   CheckStyleError_Severity := "error";
                   CheckStyleError_Source := "lint/unused" |} ] |} ] |}.

Definition xml_Decode (r : io.Reader) : error + CheckStyleResult :=
  if decide (io.data r = document) then inr tree
  else inl (library_error "encoding/xml" "XML syntax error").

(** A JSON codec for the diagnostics that have a message and nothing else,
    the message made of letters, digits and spaces: [{"message":"..."}].
    Any other text is refused, the empty text and a text that stops short
    with encoding/json's "unexpected end of JSON input". *)
Definition plain_byte (c : ascii) : bool :=
  let n := nat_of_ascii c in
  bool_decide (n = 32) || bool_decide (48 <= n <= 57)
  || bool_decide (65 <= n <= 90) || bool_decide (97 <= n <= 122).

Fixpoint plain (s : string) : bool :=
  match s with
  | EmptyString => true
  | String c rest => plain_byte c && plain rest
  end.

Definition json_head : string := "{" +:+ quoted "message" +:+ ":" +:+ String DQ EmptyString.
Definition json_tail : string := String DQ "}".

(** [strip p s] is [Some rest] when [s] is [p] followed by [rest]; [starts s p]
    holds when [s] is the beginning of [p]. *)
Fixpoint strip (p s : string) : option string :=
  match p, s with
  | EmptyString, _ => Some s
  | String a p', String b s' => if decide (a = b) then strip p' s' else None
  | String _ _, EmptyString => None
  end.

Fixpoint starts (s p : string) : bool :=
  match s, p with
  | EmptyString, _ => true
  | String b s', String a p' => bool_decide (a = b) && starts s' p'
  | String _ _, EmptyString => false
  end.

Definition unexpected_end : error :=
  library_error "encoding/json" "unexpected end of JSON input".
Definition syntax_error : error :=
  library_error "encoding/json" "invalid character".

Definition json_Unmarshal (data : string) : error + rdf.Diagnostic :=
  match strip json_head data with
  | None => inl (if starts data json_head then unexpected_end else syntax_error)
  | Some rest =>
      match bufio.cut DQ rest with
      | (msg, Some after) =>
          if plain msg then
            if decide (after = "}") then
              inr {| rdf.Diagnostic_Message := msg;
                     rdf.Diagnostic_Location := None;
                     rdf.Diagnostic_extensions := [] |}
            else inl (if decide (after = "") then unexpected_end else syntax_error)
          else inl syntax_error
      | (msg, None) => inl (if plain msg then unexpected_end else syntax_error)
      end
  end.


(** The record whose message is [msg], and its line. *)
Definition message (msg : string) : rdf.Diagnostic :=
  {| rdf.Diagnostic_Message := msg; rdf.Diagnostic_Location := None;
     rdf.Diagnostic_extensions := [] |}.
Definition record (msg : string) : string := json_head +:+ msg +:+ json_tail.

(** [2 ^ k] copies of a text, and a message of [bufio.MaxScanTokenSize]
    bytes. *)
Fixpoint doubled (k : nat) (s : string) : string :=
  match k with
  | O => s
  | S k' => doubled k' s +:+ doubled k' s
  end.
Definition long_message : string := doubled 16 "a".

(** A reader that fails after it has delivered [data]. *)
Definition failing (data : string) : io.Reader :=
  {| io.data := data; io.err := Some (library_error "io" "unexpected EOF") |}.

(** A second file element, and the documents with this file alone and with
    both files; a decoder that knows the three documents. *)
Definition file_a : string :=
  "<file name=" +:+ quoted "a.go" +:+ "><error line=" +:+ quoted "3"
  +:+ " column=" +:+ quoted "5" +:+ " severity=" +:+ quoted "error"
  +:+ " message=" +:+ quoted "unused var" +:+ " source=" +:+ quoted "lint/unused"
  +:+ "/></file>".
Definition file_b : string :=
  "<file name=" +:+ quoted "b.go" +:+ "><error line=" +:+ quoted "7"
  +:+ " message=" +:+ quoted "missing return" +:+ "/></file>".

Definition tree_b : CheckStyleResult :=
  {| CheckStyleResult_XMLName := {| xml.Space := ""; xml.Local := "checkstyle" |};
     CheckStyleResult_Version := "";
     CheckStyleResult_Files :=
       [ {| CheckStyleFile_Name := "b.go";
            CheckStyleFile_Errors :=
              [ {| CheckStyleError_Column := 0; CheckStyleError_Line := 7;
                   CheckStyleError_Message := "missing return";
                   CheckStyleError_Severity := "";
                   CheckStyleError_Source := "" |} ] |} ] |}.

Definition tree_ab : CheckStyleResult :=
  {| CheckStyleResult_XMLName := {| xml.Space := ""; xml.Local := "checkstyle" |};
     CheckStyleResult_Version := "";
     CheckStyleResult_Files := CheckStyleResult_Files tree ++ CheckStyleResult_Files tree_b |}.

Definition xml_Decode_files (r : io.Reader) : error + CheckStyleResult :=
  if decide (io.data r = "<checkstyle>" +:+ file_a +:+ "</checkstyle>") then inr tree
  else if decide (io.data r = "<checkstyle>" +:+ file_b +:+ "</checkstyle>") then inr tree_b
  else if decide (io.data r = "<checkstyle>" +:+ file_a +:+ file_b +:+ "</checkstyle>")
       then inr tree_ab
  else inl (library_error "encoding/xml" "XML syntax error").

(** An engine that refuses a rule list that holds an empty rule. *)
Definition NewErrorformat_checked (efms : list string) : error + list string :=
  if decide ("" ∈ efms) then inl (library_error "errorformat" "empty rule")
  else inr efms.

(** A checkstyle document whose line and column numbers are beyond the int32
    range, and a decoder that knows this document only. *)
Definition document_wide : string :=
  "<checkstyle><file name=" +:+ quoted "a.go" +:+ "><error line=" +:+ quoted "4294967299"
  +:+ " column=" +:+ quoted "2147483648" +:+ " severity=" +:+ quoted "error"
  +:+ " message=" +:+ quoted "unused var" +:+ " source=" +:+ quoted "lint/unused"
  +:+ "/></file></checkstyle>".

Definition tree_wide : CheckStyleResult :=
  {| CheckStyleResult_XMLName := {| xml.Space := ""; xml.Local := "checkstyle" |};
     CheckStyleResult_Version := "";
     CheckStyleResult_Files :=
       [ {| CheckStyleFile_Name := "a.go";
            CheckStyleFile_Errors :=
              [ {| CheckStyleError_Column := 2147483648;
                   CheckStyleError_Line := 4294967299;
                   CheckStyleError_Message := "unused var";
                   CheckStyleError_Severity := "error";
                   CheckStyleError_Source := "lint/unused" |} ] |} ] |}.

Definition xml_Decode_wide (r : io.Reader) : error + CheckStyleResult :=
  if decide (io.data r = document_wide) then inr tree_wide
  else inl (library_error "encoding/xml" "XML syntax error").

(** An engine that knows one line of tool output, whose line and column
    numbers are beyond the int32 range. *)
Definition entry_wide (line : string) : errorformat.Entry :=
  if decide (line = "main.go:4294967306:2147483650: missing return") then
    {| errorformat.Filename := "main.go"; errorformat.Lnum := 4294967306;
       errorformat.Col := 2147483650; errorformat.Text := "missing return";
       errorformat.Valid := true; errorformat.Lines := [line] |}
  else
    {| errorformat.Filename := ""; errorformat.Lnum := 0;
       errorformat.Col := 0; errorformat.Text := "";
       errorformat.Valid := false; errorformat.Lines := [line] |}.

Definition Scan_wide (efm : list string) (r : io.Reader) : list errorformat.Entry :=
  entry_wide <$> bufio.lines r.

End sample.

(** ** Facts about strings *)

#[local] Arguments String.append : simpl nomatch.

Lemma string_app_cons (c : ascii) (a b : string) :
  String c a +:+ b = String c (a +:+ b).
Proof. reflexivity. Qed.

Lemma string_app_nil_r (s : string) : s +:+ "" = s.
Proof. induction s as [|c s IH]; [done|]. cbn; by rewrite IH. Qed.

Lemma string_app_assoc (a b c : string) : (a +:+ b) +:+ c = a +:+ b +:+ c.
Proof. induction a as [|x a IH]; [done|]. cbn; by rewrite IH. Qed.

Lemma string_app_length (a b : string) :
  String.length (a +:+ b) = String.length a + String.length b.
Proof. induction a as [|x a IH]; [done|]. cbn. by rewrite IH. Qed.

(** ** Facts about the line scanner *)

Lemma bufio_take_drop (n : N) (data : string) :
  bufio.take n data +:+ bufio.drop n data = data.
Proof.
  revert n. induction data as [|c data IH]; intros n; [done|].
  cbn. destruct (decide (n = 0%N)); [done|]. cbn; by rewrite IH.
Qed.

Lemma bufio_shorter_spec (data : string) (n : N) :
  bufio.shorter data n = true <-> (N.of_nat (String.length data) < n)%N.
Proof.
  revert n. induction data as [|c data IH]; intros n; cbn.
  - rewrite bool_decide_eq_true. lia.
  - destruct (decide (n = 0%N)) as [->|Hn]; [split; [done|lia]|].
    rewrite IH. lia.
Qed.

Lemma bufio_take_all (n : N) (data : string) :
  bufio.shorter data n = true -> bufio.take n data = data /\ bufio.drop n data = "".
Proof.
  revert n. induction data as [|c data IH]; intros n; cbn; [done|].
  destruct (decide (n = 0%N)); [done|]. intros H. by destruct (IH _ H) as [-> ->].
Qed.

Lemma bufio_cut_none (c : ascii) (data line : string) :
  bufio.cut c data = (line, None) -> line = data.
Proof.
  revert line. induction data as [|b data IH]; intros line; cbn.
  - by intros [= <-].
  - destruct (decide (b = c)); [done|].
    destruct (bufio.cut c data) as [before after] eqn:E.
    intros [= <- ->]. by rewrite (IH before).
Qed.

Lemma bufio_cut_some (c : ascii) (data line rest : string) :
  bufio.cut c data = (line, Some rest) ->
  data = line +:+ String c rest /\ bufio.cut c line = (line, None).
Proof.
  revert line. induction data as [|b data IH]; intros line; cbn; [done|].
  destruct (decide (b = c)) as [->|Hb].
  - by intros [= <- <-].
  - destruct (bufio.cut c data) as [before after] eqn:E.
    intros [= <- ->]. destruct (IH before eq_refl) as [-> Hcut].
    split; [done|]. cbn. rewrite decide_False by done. by rewrite Hcut.
Qed.

Lemma bufio_cut_app (c : ascii) (line rest : string) :
  bufio.cut c line = (line, None) ->
  bufio.cut c (line +:+ String c rest) = (line, Some rest).
Proof.
  induction line as [|b line IH]; cbn.
  - intros _. by rewrite decide_True.
  - destruct (decide (b = c)); [done|].
    destruct (bufio.cut c line) as [before after] eqn:E.
    intros [= -> ->]. cbn. by rewrite IH.
Qed.

Lemma bufio_cut_take_some (n : N) (data line rest : string) :
  bufio.cut LF data = (line, Some rest) -> bufio.shorter line n = true ->
  exists w, bufio.cut LF (bufio.take n data) = (line, Some w)
            /\ w +:+ bufio.drop n data = rest.
Proof.
  revert n line. induction data as [|b data IH]; intros n line; cbn; [done|].
  destruct (decide (b = LF)) as [->|Hb].
  - intros [= <- <-]. cbn. rewrite bool_decide_eq_true. intros Hn.
    rewrite !decide_False by lia. cbn. rewrite decide_True by done.
    eexists; split; [done|]. apply bufio_take_drop.
  - destruct (bufio.cut LF data) as [before after] eqn:E.
    intros [= <- ->]. cbn.
    destruct (decide (n = 0%N)); [done|]. intros Hs.
    destruct (IH (N.pred n) before eq_refl Hs) as (w & Hw & Hrest).
    exists w. cbn. rewrite decide_False by done. by rewrite Hw.
Qed.

Lemma bufio_cut_take_long (n : N) (data line : string) (after : option string) :
  bufio.cut LF data = (line, after) -> bufio.shorter line n = false ->
  bufio.cut LF (bufio.take n data) = (bufio.take n data, None)
  /\ bufio.shorter data n = false.
Proof.
  revert n line. induction data as [|b data IH]; intros n line; cbn.
  - by intros [= <- <-].
  - destruct (decide (b = LF)) as [->|Hb].
    + intros [= <- <-]. cbn. rewrite bool_decide_eq_false. intros Hn.
      by rewrite !decide_True by lia.
    + destruct (bufio.cut LF data) as [before after'] eqn:E.
      intros [= <- <-]. cbn.
      destruct (decide (n = 0%N)); [done|]. intros Hs.
      destruct (IH (N.pred n) before eq_refl Hs) as [Hcut Hsh].
      cbn. rewrite decide_False by done. by rewrite Hcut.
Qed.

(** A full line within the buffer is the next token. *)
Lemma bufio_Scan_line (s : bufio.Scanner) (line rest : string) :
  bufio.cut LF (bufio.pending s) = (line, Some rest) ->
  bufio.shorter line (bufio.maxTokenSize s) = true ->
  bufio.Scan s =
    (true, {| bufio.pending := rest; bufio.rerr := bufio.rerr s;
              bufio.maxTokenSize := bufio.maxTokenSize s;
              bufio.tok := bufio.dropCR line; bufio.err := bufio.err s |}).
Proof.
  intros Hcut Hs.
  destruct (bufio_cut_take_some _ _ _ _ Hcut Hs) as (w & Hw & Hrest).
  unfold bufio.Scan, bufio.ScanLines. rewrite Hw.
  assert (bufio.take (bufio.maxTokenSize s) (bufio.pending s) <> "") as Hne.
  { intros Heq. rewrite Heq in Hw. done. }
  rewrite (bool_decide_eq_false_2 _ Hne), andb_false_r. by rewrite Hrest.
Qed.

(** What is left of a stream that ends, when it fits in the buffer, is the
    last token. *)
Lemma bufio_Scan_last (s : bufio.Scanner) :
  bufio.cut LF (bufio.pending s) = (bufio.pending s, None) ->
  bufio.shorter (bufio.pending s) (bufio.maxTokenSize s) = true ->
  bufio.pending s <> "" ->
  bufio.Scan s =
    (true, {| bufio.pending := ""; bufio.rerr := bufio.rerr s;
              bufio.maxTokenSize := bufio.maxTokenSize s;
              bufio.tok := bufio.dropCR (bufio.pending s); bufio.err := bufio.err s |}).
Proof.
  intros Hcut Hs Hne. destruct (bufio_take_all _ _ Hs) as [Htake Hdrop].
  unfold bufio.Scan, bufio.ScanLines. rewrite Htake, Hdrop, Hs, Hcut.
  by rewrite (bool_decide_eq_false_2 _ Hne).
Qed.

(** At the end of the stream the scan stops, with the reader's error. *)
Lemma bufio_Scan_end (s : bufio.Scanner) :
  bufio.pending s = "" -> (0 < bufio.maxTokenSize s)%N ->
  bufio.Scan s =
    (false, {| bufio.pending := ""; bufio.rerr := bufio.rerr s;
               bufio.maxTokenSize := bufio.maxTokenSize s;
               bufio.tok := ""; bufio.err := bufio.rerr s |}).
Proof.
  intros Hp Hn. unfold bufio.Scan, bufio.ScanLines. rewrite Hp. cbn.
  by rewrite bool_decide_eq_true_2 by done.
Qed.

(** A line that does not fit in the buffer stops the scan with
    [ErrTooLong]. *)
Lemma bufio_Scan_long (s : bufio.Scanner) (line : string) (after : option string) :
  bufio.cut LF (bufio.pending s) = (line, after) ->
  bufio.shorter line (bufio.maxTokenSize s) = false ->
  bufio.Scan s =
    (false, {| bufio.pending := bufio.pending s; bufio.rerr := bufio.rerr s;
               bufio.maxTokenSize := bufio.maxTokenSize s;
               bufio.tok := ""; bufio.err := Some bufio.ErrTooLong |}).
Proof.
  intros Hcut Hs. destruct (bufio_cut_take_long _ _ _ _ Hcut Hs) as [Hw Hsh].
  unfold bufio.Scan, bufio.ScanLines. by rewrite Hw, Hsh.
Qed.

(** What [Scan] does, by cases on the first line of the pending stream. *)
Lemma bufio_Scan_cases (s : bufio.Scanner) :
  let n := bufio.maxTokenSize s in
  let upd p t e :=
    {| bufio.pending := p; bufio.rerr := bufio.rerr s; bufio.maxTokenSize := n;
       bufio.tok := t; bufio.err := e |} in
  bufio.Scan s =
    match bufio.cut LF (bufio.pending s) with
    | (line, after) =>
        if bufio.shorter line n then
          match after with
          | Some rest => (true, upd rest (bufio.dropCR line) (bufio.err s))
          | None =>
              if decide (bufio.pending s = "") then (false, upd "" "" (bufio.rerr s))
              else (true, upd "" (bufio.dropCR (bufio.pending s)) (bufio.err s))
          end
        else (false, upd (bufio.pending s) "" (Some bufio.ErrTooLong))
    end.
Proof.
  intros n upd. destruct (bufio.cut LF (bufio.pending s)) as [line after] eqn:Hcut.
  destruct (bufio.shorter line n) eqn:Hs.
  - destruct after as [rest|].
    + by apply bufio_Scan_line.
    + pose proof (bufio_cut_none _ _ _ Hcut) as ->.
      destruct (decide (bufio.pending s = "")) as [Hp|Hp].
      * rewrite bufio_Scan_end; [done|done|].
        rewrite Hp in Hs. cbn in Hs. by apply bool_decide_eq_true in Hs.
      * by apply bufio_Scan_last.
  - by eapply bufio_Scan_long.
Qed.

(** A token consumes at least one byte, and leaves the scanner's reader and
    buffer bound as they were. *)
Lemma bufio_Scan_progress (s s' : bufio.Scanner) :
  bufio.Scan s = (true, s') ->
  String.length (bufio.pending s') < String.length (bufio.pending s)
  /\ bufio.maxTokenSize s' = bufio.maxTokenSize s
  /\ bufio.rerr s' = bufio.rerr s.
Proof.
  rewrite bufio_Scan_cases.
  destruct (bufio.cut LF (bufio.pending s)) as [line after] eqn:Hcut.
  destruct (bufio.shorter line _); [|done].
  destruct after as [rest|].
  - intros [= <-]. cbn. apply bufio_cut_some in Hcut as [-> _].
    rewrite string_app_length. cbn. split; [lia|done].
  - destruct (decide (bufio.pending s = "")) as [Hp|Hp]; [done|].
    intros [= <-]. cbn. split; [|done].
    destruct (bufio.pending s); [done|cbn; lia].
Qed.

(** The outcome of [Scan] depends on the pending stream and the buffer bound
    only, not on how the reader ends nor on earlier tokens. *)
Lemma bufio_Scan_same (s1 s2 : bufio.Scanner) :
  bufio.pending s1 = bufio.pending s2 ->
  bufio.maxTokenSize s1 = bufio.maxTokenSize s2 ->
  (bufio.Scan s1).1 = (bufio.Scan s2).1
  /\ bufio.pending (bufio.Scan s1).2 = bufio.pending (bufio.Scan s2).2
  /\ bufio.maxTokenSize (bufio.Scan s1).2 = bufio.maxTokenSize (bufio.Scan s2).2
  /\ bufio.tok (bufio.Scan s1).2 = bufio.tok (bufio.Scan s2).2.
Proof.
  intros Hp Hn. unfold bufio.Scan. rewrite Hp, Hn.
  by destruct (bufio.ScanLines _ _) as [[token rest]|].
Qed.

Lemma bufio_tokens_same (fuel : nat) (s1 s2 : bufio.Scanner) :
  bufio.pending s1 = bufio.pending s2 ->
  bufio.maxTokenSize s1 = bufio.maxTokenSize s2 ->
  bufio.tokens fuel s1 = bufio.tokens fuel s2.
Proof.
  revert s1 s2. induction fuel as [|fuel IH]; intros s1 s2 Hp Hn; [done|].
  cbn. destruct (bufio_Scan_same s1 s2 Hp Hn) as (Hb & Hp' & Hn' & Ht).
  destruct (bufio.Scan s1) as [b1 s1'], (bufio.Scan s2) as [b2 s2'].
  cbn in *. subst b2. destruct b1; [|done].
  unfold bufio.Text. rewrite Ht. f_equal. by apply IH.
Qed.

(** More fuel than there are pending bytes is as good as any. *)
Lemma bufio_tokens_fuel (fuel1 fuel2 : nat) (s : bufio.Scanner) :
  String.length (bufio.pending s) < fuel1 ->
  String.length (bufio.pending s) < fuel2 ->
  bufio.tokens fuel1 s = bufio.tokens fuel2 s.
Proof.
  revert fuel2 s. induction fuel1 as [|fuel1 IH]; intros fuel2 s H1 H2; [lia|].
  destruct fuel2 as [|fuel2]; [lia|]. cbn.
  destruct (bufio.Scan s) as [[] s'] eqn:Hscan; [|done].
  apply bufio_Scan_progress in Hscan as (Hlt & _ & _).
  f_equal. apply IH; lia.
Qed.

(** The lines of a stream, one line at a time: a line that fits in the buffer
    is delivered without its terminator and a carriage return before it, the
    rest of an unterminated stream is the last line, and a line that does not
    fit ends the scan. *)
Lemma bufio_lines_unfold (data : string) (e : option error) :
  bufio.lines {| io.data := data; io.err := e |} =
    match bufio.cut LF data with
    | (line, after) =>
        if bufio.shorter line bufio.MaxScanTokenSize then
          match after with
          | Some rest => bufio.dropCR line :: bufio.lines {| io.data := rest; io.err := e |}
          | None => if decide (data = "") then [] else [bufio.dropCR data]
          end
        else []
    end.
Proof.
  unfold bufio.lines at 1. cbn [bufio.tokens io.data].
  rewrite bufio_Scan_cases. cbn [bufio.NewScanner bufio.pending bufio.maxTokenSize io.data].
  destruct (bufio.cut LF data) as [line after] eqn:Hcut.
  destruct (bufio.shorter line bufio.MaxScanTokenSize); [|done].
  destruct after as [rest|].
  - cbn [bufio.Text bufio.tok]. f_equal. unfold bufio.lines.
    apply bufio_cut_some in Hcut as [-> _].
    etrans; [apply (bufio_tokens_fuel _ (S (String.length rest)))|].
    + cbn. rewrite string_app_length. cbn. lia.
    + cbn. lia.
    + by apply bufio_tokens_same.
  - destruct (decide (data = "")); [done|].
    cbn [bufio.Text bufio.tok]. f_equal.
    destruct (String.length data); [done|]. cbn.
    rewrite bufio_Scan_end; done.
Qed.


Lemma bufio_cut_app_some (c : ascii) (a b line rest : string) :
  bufio.cut c a = (line, Some rest) ->
  bufio.cut c (a +:+ b) = (line, Some (rest +:+ b)).
Proof.
  revert line. induction a as [|x a IH]; intros line; cbn; [done|].
  destruct (decide (x = c)).
  - by intros [= <- <-].
  - destruct (bufio.cut c a) as [before after] eqn:E.
    intros [= <- ->]. by rewrite (IH before).
Qed.

Lemma bufio_cut_app_none (c : ascii) (a b : string) :
  bufio.cut c a = (a, None) ->
  bufio.cut c (a +:+ b) = (a +:+ (bufio.cut c b).1, (bufio.cut c b).2).
Proof.
  induction a as [|x a IH]; cbn.
  - intros _. by destruct (bufio.cut c b).
  - destruct (decide (x = c)); [done|].
    destruct (bufio.cut c a) as [before after] eqn:E.
    intros [= -> ->]. by rewrite IH.
Qed.

(** The terminator of the last line adds no line. *)
Lemma bufio_lines_final_LF (data : string) (c : ascii) (e : option error) :
  c <> LF ->
  bufio.lines {| io.data := data +:+ String c (String LF ""); io.err := e |}
  = bufio.lines {| io.data := data +:+ String c ""; io.err := e |}.
Proof.
  intros Hc. remember (String.length data) as n eqn:Hn. revert data Hn.
  induction n as [n IH] using lt_wf_ind. intros data ->.
  rewrite (bufio_lines_unfold (data +:+ String c (String LF ""))).
  rewrite (bufio_lines_unfold (data +:+ String c "")).
  destruct (bufio.cut LF data) as [line [rest|]] eqn:Hcut.
  - rewrite !(bufio_cut_app_some _ _ _ _ _ Hcut).
    destruct (bufio.shorter line _); [|done]. f_equal.
    apply bufio_cut_some in Hcut as [-> _].
    apply (IH (String.length rest)); [|done].
    rewrite string_app_length. cbn. lia.
  - pose proof (bufio_cut_none _ _ _ Hcut) as ->.
    assert (bufio.cut LF (String c (String LF "")) = (String c "", Some "")) as H1.
    { cbn. rewrite decide_False by done. by rewrite decide_True. }
    assert (bufio.cut LF (String c "") = (String c "", None)) as H2.
    { cbn. by rewrite decide_False. }
    rewrite !(bufio_cut_app_none _ _ _ Hcut), H1, H2. cbn [fst snd].
    destruct (bufio.shorter _ _); [|done].
    rewrite decide_False by (by destruct data).
    f_equal.
Qed.

Lemma fits_spec (l : string) :
  fits l = true <->
  bufio.cut LF l = (l, None) /\ bufio.dropCR l = l
  /\ bufio.shorter l bufio.MaxScanTokenSize = true.
Proof.
  unfold fits. rewrite !andb_true_iff, !bool_decide_eq_true. tauto.
Qed.

Lemma bufio_shorter_app (a b : string) (n : N) :
  bufio.shorter a n = false -> bufio.shorter (a +:+ b) n = false.
Proof.
  rewrite <- !not_true_iff_false, !bufio_shorter_spec, string_app_length. lia.
Qed.

(** Lines that fit, each followed by a line feed, are delivered as they
    are, before the lines of the rest of the stream. *)
Lemma bufio_lines_unlines_app (ls : list string) (rest : string) (e : option error) :
  Forall (fun l => fits l = true) ls ->
  bufio.lines {| io.data := unlines ls +:+ rest; io.err := e |}
  = ls ++ bufio.lines {| io.data := rest; io.err := e |}.
Proof.
  induction 1 as [|l ls (Hcut & Hcr & Hfit)%fits_spec _ IH]; [done|].
  cbn [unlines]. rewrite string_app_assoc. cbn [String.append].
  rewrite bufio_lines_unfold, (bufio_cut_app _ _ _ Hcut), Hfit.
  by rewrite Hcr, IH.
Qed.

Lemma bufio_lines_unlines (ls : list string) (e : option error) :
  Forall (fun l => fits l = true) ls ->
  bufio.lines {| io.data := unlines ls; io.err := e |} = ls.
Proof.
  intros Hls. rewrite <- (string_app_nil_r (unlines ls)).
  rewrite bufio_lines_unlines_app by done.
  by rewrite bufio_lines_unfold, app_nil_r.
Qed.

(** The last line may go without its line feed when it is not empty. *)
Lemma bufio_lines_unlines_last (ls : list string) (last : string) (e : option error) :
  Forall (fun l => fits l = true) ls ->
  fits last = true ->
  last <> "" ->
  bufio.lines {| io.data := unlines ls +:+ last; io.err := e |} = ls ++ [last].
Proof.
  intros Hls (Hcut & Hcr & Hfit)%fits_spec Hlast.
  rewrite bufio_lines_unlines_app by done. f_equal.
  rewrite bufio_lines_unfold, Hcut, Hfit.
  rewrite decide_False by done. by rewrite Hcr.
Qed.

(** A blank line after lines that fit is delivered, as the empty line. *)
Lemma bufio_lines_unlines_blank (ls : list string) (rest : string) (e : option error) :
  Forall (fun l => fits l = true) ls ->
  bufio.lines {| io.data := unlines ls +:+ String LF rest; io.err := e |}
  = ls ++ "" :: bufio.lines {| io.data := rest; io.err := e |}.
Proof.
  intros Hls. rewrite bufio_lines_unlines_app by done. f_equal.
  by rewrite bufio_lines_unfold.
Qed.

(** A line that does not fit ends the lines of the stream. *)
Lemma bufio_lines_too_long (line rest : string) (e : option error) :
  bufio.cut LF line = (line, None) ->
  bufio.shorter line bufio.MaxScanTokenSize = false ->
  bufio.lines {| io.data := line +:+ rest; io.err := e |} = [].
Proof.
  intros Hcut Hlong. rewrite bufio_lines_unfold, (bufio_cut_app_none _ _ _ Hcut).
  by rewrite bufio_shorter_app.
Qed.

(** The conversion to int32 keeps the numbers of the int32 range. *)
Lemma int32_small (x : Z) : (- 2 ^ 31 <= x < 2 ^ 31)%Z -> int32 x = x.
Proof. intros Hx. unfold int32. rewrite Z.mod_small; lia. Qed.

Lemma int32_range (x : Z) : is_int32 (int32 x).
Proof.
  unfold is_int32, int32.
  pose proof (Z.mod_pos_bound (x + 2 ^ 31) (2 ^ 32)). lia.
Qed.

Lemma bufio_dropCR_app_CR (l : string) : bufio.dropCR (l +:+ String CR "") = l.
Proof.
  induction l as [|c l IH]; cbn.
  - by rewrite decide_True.
  - rewrite IH. by destruct l.
Qed.

Lemma bufio_dropCR_cut (l : string) :
  bufio.cut LF l = (l, None) -> bufio.cut LF (bufio.dropCR l) = (bufio.dropCR l, None).
Proof.
  induction l as [|c l IH]; [done|]. cbn.
  destruct (decide (c = LF)); [done|].
  destruct (bufio.cut LF l) as [before after] eqn:E. intros [= -> ->].
  destruct l as [|c' l'].
  - by destruct (decide (c = CR)); cbn; rewrite ?decide_False.
  - cbn [bufio.cut]. rewrite decide_False by done. by rewrite IH.
Qed.

Lemma bufio_dropCR_length (l : string) :
  String.length (bufio.dropCR l) <= String.length l.
Proof.
  induction l as [|c l IH]; [done|]. destruct l as [|c' l'].
  - cbn. destruct (decide (c = CR)); cbn; lia.
  - cbn [bufio.dropCR String.length] in *. lia.
Qed.

Lemma bufio_dropCR_shorter (l : string) (n : N) :
  bufio.shorter l n = true -> bufio.shorter (bufio.dropCR l) n = true.
Proof. rewrite !bufio_shorter_spec. pose proof (bufio_dropCR_length l). lia. Qed.

(** Every line the scanner delivers is free of line feeds and shorter than
    the scanner's buffer. *)
Lemma bufio_lines_fit (r : io.Reader) :
  Forall (fun l => bufio.cut LF l = (l, None)
                   /\ bufio.shorter l bufio.MaxScanTokenSize = true) (bufio.lines r).
Proof.
  destruct r as [data e]. remember (String.length data) as n eqn:Hn. revert data Hn.
  induction n as [n IH] using lt_wf_ind. intros data ->.
  rewrite bufio_lines_unfold.
  destruct (bufio.cut LF data) as [line [rest|]] eqn:Hcut.
  - destruct (bufio.shorter line _) eqn:Hs; [|constructor].
    apply bufio_cut_some in Hcut as [-> Hline]. constructor.
    + split; [by apply bufio_dropCR_cut|by apply bufio_dropCR_shorter].
    + apply (IH (String.length rest)); [|done].
      rewrite string_app_length. cbn. lia.
  - pose proof (bufio_cut_none _ _ _ Hcut) as ->.
    destruct (bufio.shorter data _) eqn:Hs; [|constructor].
    destruct (decide (data = "")); constructor; [|constructor].
    split; [by apply bufio_dropCR_cut|by apply bufio_dropCR_shorter].
Qed.

(** Lines ended by a carriage return and a line feed are delivered without
    either, when the line and its carriage return fit the buffer. *)
Lemma bufio_lines_unlines_crlf (ls : list string) (e : option error) :
  Forall (fun l => bufio.cut LF l = (l, None)
                   /\ bufio.shorter (l +:+ String CR "") bufio.MaxScanTokenSize = true) ls ->
  bufio.lines {| io.data := unlines_crlf ls; io.err := e |} = ls.
Proof.
  induction 1 as [|l ls [Hcut Hfit] _ IH]; [by rewrite bufio_lines_unfold|].
  cbn [unlines_crlf].
  assert (bufio.cut LF (l +:+ String CR "") = (l +:+ String CR "", None)) as Hcut'.
  { rewrite (bufio_cut_app_none _ _ _ Hcut). cbn. by rewrite decide_False. }
  replace (l +:+ String CR (String LF (unlines_crlf ls)))
    with ((l +:+ String CR "") +:+ String LF (unlines_crlf ls))
    by (by rewrite string_app_assoc).
  rewrite bufio_lines_unfold, (bufio_cut_app _ _ _ Hcut'), Hfit.
  by rewrite bufio_dropCR_app_CR, IH.
Qed.

(** ** Facts about the loops *)

Lemma foldl_snoc {A B : Type} (f : B -> A) (l : list B) (acc : list A) :
  foldl (fun rs x => rs ++ [f x]) acc l = acc ++ (f <$> l).
Proof.
  revert acc. induction l as [|x l IH]; intros acc; cbn.
  - by rewrite app_nil_r.
  - by rewrite IH, <- app_assoc.
Qed.

Lemma foldl_snoc_nested {A B C : Type} (g : C -> list B) (f : C -> B -> A)
    (l : list C) (acc : list A) :
  foldl (fun rs c => foldl (fun rs x => rs ++ [f c x]) rs (g c)) acc l
  = acc ++ (c ← l; f c <$> g c).
Proof.
  revert acc. induction l as [|c l IH]; intros acc; cbn.
  - by rewrite app_nil_r.
  - by rewrite IH, foldl_snoc, <- app_assoc.
Qed.

Lemma foldl_snoc_if {A B : Type} (p : B -> bool) (f : B -> A) (l : list B) (acc : list A) :
  foldl (fun rs x => if p x then rs ++ [f x] else rs) acc l
  = acc ++ (f <$> filter (fun x => p x) l).
Proof.
  revert acc. induction l as [|x l IH]; intros acc.
  - cbn. by rewrite app_nil_r.
  - cbn [foldl]. rewrite IH, filter_cons. destruct (p x) eqn:Hp.
    + rewrite decide_True by done. by rewrite <- app_assoc.
    + rewrite decide_False by (by intros []). done.
Qed.

Lemma length_bind_sum {A B : Type} (g : A -> list B) (l : list A) :
  length (l ≫= g) = sum_list (length ∘ g <$> l).
Proof. induction l as [|x l IH]; [done|]. cbn. by rewrite length_app, IH. Qed.

Section Properties.

Variable errorformat_Errorformat : Type.
Variable errorformat_NewErrorformat :
  list string -> error + errorformat_Errorformat.
Variable errorformat_Scan : errorformat_Errorformat -> io.Reader -> list errorformat.Entry.
Variable fmts_DefinedFmts : gmap string fmts.Fmt.
Variable xml_Decode : io.Reader -> error + CheckStyleResult.
Variable json_Unmarshal : string -> error + rdf.Diagnostic.

(** [json.Marshal(d)], the encoder that goes with [json_Unmarshal]. *)
Variable json_Marshal : rdf.Diagnostic -> error + string.

Local Abbreviation Parse := (RDJSONLParser_Parse json_Unmarshal).
Local Abbreviation decode := (RDJSONLParser_decode json_Unmarshal).

(** The loop, given more fuel than there are pending bytes, does to the
    scanner's tokens what [RDJSONLParser_decode] does to a list of lines. *)
Lemma RDJSONLParser_loop_decode (fuel : nat) (s : bufio.Scanner) (results : list CheckResult) :
  String.length (bufio.pending s) < fuel ->
  RDJSONLParser_loop json_Unmarshal fuel s results
  = Some (decode (bufio.tokens fuel s) results).
Proof.
  revert s results. induction fuel as [|fuel IH]; intros s results Hfuel; [lia|].
  cbn. destruct (bufio.Scan s) as [[] s'] eqn:Hscan; [|done].
  apply bufio_Scan_progress in Hscan as (Hlt & _ & _).
  cbn. unfold bufio.Bytes, bufio.Text.
  destruct (json_Unmarshal (bufio.tok s')) as [err|d]; [done|].
  apply IH. lia.
Qed.

(** [Parse] decodes the lines of the stream, in order, each line once. *)
Lemma RDJSONLParser_Parse_lines (r : io.Reader) :
  Parse r = Some (decode (bufio.lines r) []).
Proof. apply RDJSONLParser_loop_decode. cbn. lia. Qed.

(** X3. [Parse] returns on every stream: the loop ends before its fuel
    does. *)
Lemma RDJSONLParser_Parse_total (r : io.Reader) : is_Some (Parse r).
Proof. rewrite RDJSONLParser_Parse_lines. by eexists. Qed.

(** Lines that all decode give one result each, after the results so far. *)
Lemma RDJSONLParser_decode_ok (lines : list string) (ds : list rdf.Diagnostic)
    (results : list CheckResult) :
  Forall2 (fun line d => json_Unmarshal line = inr d) lines ds ->
  decode lines results
  = (results ++ zip_with (fun d line => {| Diagnostic := d; Lines := [line] |}) ds lines,
     None).
Proof.
  intros H. revert results. induction H as [|line d lines ds Hd _ IH]; intros results; cbn.
  - by rewrite app_nil_r.
  - rewrite Hd, IH. by rewrite <- app_assoc.
Qed.

(** The first line that does not decode ends the call with its error. *)
Lemma RDJSONLParser_decode_fail (pre post : list string) (bad : string) (err : error)
    (results : list CheckResult) :
  Forall (fun line => exists d, json_Unmarshal line = inr d) pre ->
  json_Unmarshal bad = inl err ->
  decode (pre ++ bad :: post) results = ([], Some err).
Proof.
  intros H Hbad. revert results.
  induction H as [|line pre [d Hd] _ IH]; intros results; cbn.
  - by rewrite Hbad.
  - by rewrite Hd, IH.
Qed.

Lemma Forall_decodes (lines : list string) :
  Forall (fun line => exists d, json_Unmarshal line = inr d) lines ->
  exists ds, Forall2 (fun line d => json_Unmarshal line = inr d) lines ds.
Proof.
  induction 1 as [|line lines [d Hd] _ [ds IH]].
  - by exists [].
  - exists (d :: ds). by constructor.
Qed.

(** The results so far are kept in front of what the remaining lines give,
    and dropped when one of them does not decode. *)
Lemma RDJSONLParser_decode_acc (lines : list string) (results : list CheckResult) :
  decode lines results
  = match decode lines [] with
    | (rs, None) => (results ++ rs, None)
    | (rs, Some err) => (rs, Some err)
    end.
Proof.
  revert results. induction lines as [|line lines IH]; intros results; cbn.
  - by rewrite app_nil_r.
  - destruct (json_Unmarshal line) as [err|d]; [done|].
    rewrite (IH (results ++ _)), (IH [_]).
    destruct (decode lines []) as [rs [err|]]; [done|].
    by rewrite <- app_assoc.
Qed.

(** Lines that decode, in front of other lines, add their results to the
    results so far. *)
Lemma RDJSONLParser_decode_app (ls tail : list string) (ds : list rdf.Diagnostic)
    (results : list CheckResult) :
  Forall2 (fun line d => json_Unmarshal line = inr d) ls ds ->
  decode (ls ++ tail) results
  = decode tail
      (results ++ zip_with (fun d line => {| Diagnostic := d; Lines := [line] |}) ds ls).
Proof.
  intros Hds. revert results.
  induction Hds as [|line d ls ds Hd _ IH]; intros results; cbn.
  - by rewrite app_nil_r.
  - rewrite Hd, IH. by rewrite <- app_assoc.
Qed.

(** *** The checkstyle parser *)

(** C1, amended. A checkstyle document that decodes gives one result per
    error element, files in document order and the errors of a file in
    document order: the number of results is the sum over the files of their
    numbers of errors. Each result has the name of the enclosing file as its
    path, the message attribute as its message, and as its only line the text
    path:line:col: severity: message (source), which shows the line and
    column attributes as they were decoded. Its start position is the line
    and column attributes converted to int32: the attributes themselves when
    they are in the int32 range, their low 32 bits read as a signed number
    otherwise. *)
Theorem CheckStyleParser_Parse_flattens (r : io.Reader) (cs : CheckStyleResult) :
  xml_Decode r = inr cs ->
  let result (file : CheckStyleFile) (cerr : CheckStyleError) :=
    {| Diagnostic :=
         located (CheckStyleFile_Name file)
                 (int32 (CheckStyleError_Line cerr))
                 (int32 (CheckStyleError_Column cerr))
                 (CheckStyleError_Message cerr);
       Lines :=
         [ CheckStyleFile_Name file +:+ ":" +:+ pretty (CheckStyleError_Line cerr)
           +:+ ":" +:+ pretty (CheckStyleError_Column cerr)
           +:+ ": " +:+ CheckStyleError_Severity cerr
           +:+ ": " +:+ CheckStyleError_Message cerr
           +:+ " (" +:+ CheckStyleError_Source cerr +:+ ")" ] |} in
  exists rs,
    CheckStyleParser_Parse xml_Decode r = (rs, None)
    /\ rs = (file ← CheckStyleResult_Files cs; result file <$> CheckStyleFile_Errors file)
    /\ length rs
       = sum_list ((fun file => length (CheckStyleFile_Errors file)) <$> CheckStyleResult_Files cs)
    /\ forall (file : CheckStyleFile) (cerr : CheckStyleError),
         is_int32 (CheckStyleError_Line cerr) ->
         is_int32 (CheckStyleError_Column cerr) ->
         Diagnostic (result file cerr)
         = located (CheckStyleFile_Name file) (CheckStyleError_Line cerr)
                   (CheckStyleError_Column cerr) (CheckStyleError_Message cerr).
Proof.
  intros Hdecode result. eexists. split; [|split; [reflexivity|split]].
  - unfold CheckStyleParser_Parse. rewrite Hdecode. f_equal.
    by rewrite (foldl_snoc_nested CheckStyleFile_Errors result).
  - rewrite length_bind_sum. f_equal. apply list_fmap_ext.
    intros _ file _. cbn. by rewrite length_fmap.
  - intros file cerr Hline Hcol. cbn. by rewrite !int32_small.
Qed.

(** *** The line-delimited parser *)

(** C2, amended. A stream of K lines, each a well-formed record that fits
    the line scanner (no line feed inside, no carriage return at its end,
    fewer than [bufio.MaxScanTokenSize] bytes) and each followed by a line
    feed, which a last line that is not empty may go without, gives K
    results, in the order of the lines, however the reader ends: the i-th
    result holds the i-th line as its only line and the value that line
    decodes to as its diagnostic. *)
Theorem RDJSONLParser_Parse_well_formed (ls : list string) (data : string)
    (e : option error) :
  Forall (fun l => fits l = true) ls ->
  Forall (fun line => exists d, json_Unmarshal line = inr d) ls ->
  data = unlines ls
  \/ (exists (init : list string) (last : string),
        ls = init ++ [last] /\ last <> "" /\ data = unlines init +:+ last) ->
  exists rs,
    Parse {| io.data := data; io.err := e |} = Some (rs, None)
    /\ length rs = length ls
    /\ forall (i : nat) (line : string),
         ls !! i = Some line ->
         exists d, json_Unmarshal line = inr d
                   /\ rs !! i = Some {| Diagnostic := d; Lines := [line] |}.
Proof.
  intros Hfit Hall Hdata. destruct (Forall_decodes _ Hall) as [ds Hds].
  assert (bufio.lines {| io.data := data; io.err := e |} = ls) as Hlines.
  { destruct Hdata as [->|(init & last & -> & Hlast & ->)].
    - by apply bufio_lines_unlines.
    - apply Forall_app in Hfit as [Hinit [Hfit _]%Forall_cons].
      by apply bufio_lines_unlines_last. }
  exists (zip_with (fun d line => {| Diagnostic := d; Lines := [line] |}) ds ls).
  split; [|split].
  - by rewrite RDJSONLParser_Parse_lines, Hlines, (RDJSONLParser_decode_ok _ ds).
  - rewrite length_zip_with. apply Forall2_length in Hds. lia.
  - intros i line Hline.
    destruct (Forall2_lookup_l _ _ _ _ _ Hds Hline) as (d & Hd & Hdec).
    exists d. split; [done|].
    by rewrite lookup_zip_with, Hd, Hline.
Qed.



(** C8, amended. A blank line is not absorbed, wherever it stands: after
    any lines that fit the line scanner, the scanner delivers it as the empty
    line, and when these lines decode the empty line is decoded like any
    other line. When the decoder refuses the empty text the call fails with
    that error and no result; when it accepts it, the value it gives is a
    result of its own, with the empty text as its line, after the results of
    the lines before it and before those of the rest of the stream. The same
    holds of a blank line at the end of the stream. Only the terminator of
    the last line is absorbed: a stream whose last byte is not a line feed
    parses the same with a line feed added. *)
Theorem RDJSONLParser_Parse_blank_lines (pre : list string) (ds : list rdf.Diagnostic)
    (rest data : string) (c : ascii) (e : option error) :
  (Forall (fun l => fits l = true) pre ->
   Forall2 (fun line d => json_Unmarshal line = inr d) pre ds ->
   bufio.lines {| io.data := unlines pre +:+ String LF rest; io.err := e |}
   = pre ++ "" :: bufio.lines {| io.data := rest; io.err := e |}
   /\ Parse {| io.data := unlines pre +:+ String LF rest; io.err := e |}
      = match json_Unmarshal "" with
        | inl err => Some ([], Some err)
        | inr d =>
            match Parse {| io.data := rest; io.err := e |} with
            | Some (rs, None) =>
                Some (zip_with (fun d line => {| Diagnostic := d; Lines := [line] |}) ds pre
                      ++ {| Diagnostic := d; Lines := [""] |} :: rs,
                      None)
            | other => other
            end
        end
   /\ Parse {| io.data := unlines (pre ++ [""]); io.err := e |}
      = match json_Unmarshal "" with
        | inl err => Some ([], Some err)
        | inr d =>
            Some (zip_with (fun d line => {| Diagnostic := d; Lines := [line] |}) ds pre
                  ++ [ {| Diagnostic := d; Lines := [""] |} ],
                  None)
        end)
  /\ (c <> LF ->
      Parse {| io.data := data +:+ String c (String LF ""); io.err := e |}
      = Parse {| io.data := data +:+ String c ""; io.err := e |}).
Proof.
  split.
  - intros Hfit Hds. split; [by apply bufio_lines_unlines_blank|split].
    + rewrite !RDJSONLParser_Parse_lines, bufio_lines_unlines_blank by done.
      rewrite (RDJSONLParser_decode_app _ _ ds) by done. cbn.
      destruct (json_Unmarshal "") as [err|d]; [done|].
      rewrite RDJSONLParser_decode_acc.
      destruct (decode _ []) as [rs [err|]]; [done|].
      by rewrite <- app_assoc.
    + rewrite RDJSONLParser_Parse_lines, bufio_lines_unlines.
      * rewrite (RDJSONLParser_decode_app _ _ ds) by done. cbn.
        by destruct (json_Unmarshal "") as [err|d].
      * apply Forall_app. split; [done|]. by constructor.
  - intros Hc. by rewrite !RDJSONLParser_Parse_lines, bufio_lines_final_LF.
Qed.


(** X1. A stream made of lines that fit the scanner and decode, each
    followed by a line feed, gives one result per line, in order, however the
    reader ends. *)
Theorem RDJSONLParser_Parse_unlines (ls : list string) (ds : list rdf.Diagnostic)
    (e : option error) :
  Forall (fun l => fits l = true) ls ->
  Forall2 (fun line d => json_Unmarshal line = inr d) ls ds ->
  Parse {| io.data := unlines ls; io.err := e |}
  = Some (zip_with (fun d line => {| Diagnostic := d; Lines := [line] |}) ds ls, None).
Proof.
  intros Hfit Hds.
  rewrite RDJSONLParser_Parse_lines, bufio_lines_unlines by done.
  by rewrite (RDJSONLParser_decode_ok _ ds).
Qed.

(** X2. A line of [bufio.MaxScanTokenSize] bytes or more ends the scan: the
    call returns as if the stream had ended before that line, with the
    results of the lines before it and no error, and nothing after that line
    is read. *)
Theorem RDJSONLParser_Parse_too_long (ls : list string) (line rest : string)
    (e : option error) :
  Forall (fun l => fits l = true) ls ->
  bufio.cut LF line = (line, None) ->
  bufio.shorter line bufio.MaxScanTokenSize = false ->
  Parse {| io.data := unlines ls +:+ line +:+ rest; io.err := e |}
  = Parse {| io.data := unlines ls; io.err := e |}.
Proof.
  intros Hfit Hcut Hlong. rewrite !RDJSONLParser_Parse_lines.
  rewrite bufio_lines_unlines_app, bufio_lines_unlines by done.
  by rewrite bufio_lines_too_long, app_nil_r.
Qed.

(** *** The errorformat parser *)

(** C5, amended. The errorformat parser returns one result per entry of the
    scan that is valid, in scan order, and none for the others: the result of
    an entry has its file name as path, its text as message, its lines, and
    as start position its line and column numbers converted to int32: the
    numbers themselves when they are in the int32 range, their low 32 bits
    read as a signed number otherwise. *)
Theorem ErrorformatParser_Parse_valid_entries (p : ErrorformatParser errorformat_Errorformat)
    (r : io.Reader) :
  let result (e : errorformat.Entry) :=
    {| Diagnostic :=
         located (errorformat.Filename e) (int32 (errorformat.Lnum e))
                 (int32 (errorformat.Col e)) (errorformat.Text e);
       Lines := errorformat.Lines e |} in
  ErrorformatParser_Parse errorformat_Scan p r
  = (result <$> filter (fun e => errorformat.Valid e) (errorformat_Scan (efm p) r), None)
  /\ forall e : errorformat.Entry,
       is_int32 (errorformat.Lnum e) ->
       is_int32 (errorformat.Col e) ->
       result e
       = {| Diagnostic :=
              located (errorformat.Filename e) (errorformat.Lnum e)
                      (errorformat.Col e) (errorformat.Text e);
            Lines := errorformat.Lines e |}.
Proof.
  intros result. split.
  - unfold ErrorformatParser_Parse. f_equal.
    by rewrite (foldl_snoc_if errorformat.Valid).
  - intros e Hline Hcol. unfold result. by rewrite !int32_small.
Qed.

(** C6. The errorformat parser returns no error, whatever the stream and
    however its reader ends; when no entry of the scan is valid it returns
    the empty sequence. *)
Theorem ErrorformatParser_Parse_no_error (p : ErrorformatParser errorformat_Errorformat)
    (r : io.Reader) :
  (ErrorformatParser_Parse errorformat_Scan p r).2 = None
  /\ (Forall (fun e => errorformat.Valid e = false) (errorformat_Scan (efm p) r) ->
      (ErrorformatParser_Parse errorformat_Scan p r).1 = []).
Proof.
  split; [done|]. intros Hnone. unfold ErrorformatParser_Parse. cbn.
  rewrite (foldl_snoc_if errorformat.Valid). cbn.
  induction Hnone as [|e es He _ IH]; [done|].
  rewrite filter_cons, decide_False; [done|]. rewrite He. by intros [].
Qed.

(** *** The factory *)

(** C3. With a format name and a non-empty errorformat at once,
    [NewParser] returns the nil parser and the configuration conflict error,
    whatever the name and the errorformat are. *)
Theorem NewParser_conflict (opt : ParserOpt) :
  FormatName opt <> "" ->
  Errorformat opt <> [] ->
  NewParser errorformat_NewErrorformat fmts_DefinedFmts opt
  = (nil_Parser, Some ConfigurationConflict, opt).
Proof.
  intros Hname Hefm. unfold NewParser.
  rewrite (bool_decide_eq_true_2 _ Hname).
  rewrite (bool_decide_eq_true_2 (0 < _)); [done|].
  destruct (Errorformat opt); [done|cbn; lia].
Qed.

(** X4. A name that is neither built in nor in the catalog is refused as
    unsupported, and the options are left as they were. *)
Theorem NewParser_unsupported (opt : ParserOpt) :
  FormatName opt <> "" ->
  Errorformat opt = [] ->
  FormatName opt <> "checkstyle" ->
  FormatName opt <> "rdjsonl" ->
  fmts_DefinedFmts !! FormatName opt = None ->
  NewParser errorformat_NewErrorformat fmts_DefinedFmts opt
  = (nil_Parser, Some (UnsupportedFormat (FormatName opt)), opt).
Proof.
  intros Hname Hefm Hcs Hrd Hcat. unfold NewParser.
  rewrite Hefm, (bool_decide_eq_true_2 _ Hname), Hcat. cbn.
  by rewrite !decide_False by done.
Qed.

(** X5. With neither a name nor an errorformat there is nothing to compile:
    the call fails with the empty format error. *)
Theorem NewParser_empty (opt : ParserOpt) :
  FormatName opt = "" ->
  Errorformat opt = [] ->
  NewParser errorformat_NewErrorformat fmts_DefinedFmts opt
  = (nil_Parser, Some EmptyFormat, opt).
Proof.
  intros Hname Hefm. unfold NewParser. rewrite Hname, Hefm. cbn.
  rewrite bool_decide_eq_false_2 by (intros H; by apply H).
  by rewrite Hefm.
Qed.

(** X6. An errorformat given without a name is compiled: when the rules
    compile the result is the errorformat parser that holds the compiled
    rules, and no error. *)
Theorem NewParser_errorformat (opt : ParserOpt) (engine : errorformat_Errorformat) :
  FormatName opt = "" ->
  Errorformat opt <> [] ->
  errorformat_NewErrorformat (Errorformat opt) = inr engine ->
  NewParser errorformat_NewErrorformat fmts_DefinedFmts opt
  = (ErrorformatParser_ptr (Some {| efm := engine |}), None, opt).
Proof.
  destruct opt as [name [|rule rules]]; cbn; intros -> Hefm Hcompile; [done|].
  unfold NewParser, NewErrorformatParserString. cbn.
  rewrite (bool_decide_eq_false_2 ("" <> "")) by (intros H; by apply H).
  cbn. by rewrite Hcompile.
Qed.

(** C9, amended. [NewParser] leaves the format name of its argument as it
    was, and the errorformat too, except when the name is not empty, is not
    one of the two built-in names and is in the catalog, the errorformat being
    empty: then the errorformat of the argument is the catalog entry's when
    the call returns. *)
Theorem NewParser_frame (opt : ParserOpt) :
  let opt' := (NewParser errorformat_NewErrorformat fmts_DefinedFmts opt).2 in
  FormatName opt' = FormatName opt
  /\ Errorformat opt'
     = match fmts_DefinedFmts !! FormatName opt with
       | Some entry =>
           if bool_decide (FormatName opt <> "" /\ Errorformat opt = []
                           /\ FormatName opt <> "checkstyle"
                           /\ FormatName opt <> "rdjsonl")
           then fmts.Errorformat entry
           else Errorformat opt
       | None => Errorformat opt
       end.
Proof.
  unfold NewParser, NewErrorformatParserString.
  destruct opt as [name efms]; cbn.
  repeat (case_bool_decide || case_decide || case_match);
    simplify_eq/=; try done.
  all: try (destruct efms; cbn in *; [|lia]).
  all: try tauto.
  all: destruct_and!; simplify_eq/=; lia.
Qed.

(** *** More on the line-delimited parser *)

(** The lines of a stream either all decode or make the call fail. *)
Lemma RDJSONLParser_decode_cases (lines : list string) :
  (exists ds, Forall2 (fun line d => json_Unmarshal line = inr d) lines ds)
  \/ (exists err, decode lines [] = ([], Some err)).
Proof.
  induction lines as [|line lines [[ds Hds]|[err Herr]]].
  - left. by exists [].
  - destruct (json_Unmarshal line) as [err|d] eqn:Hline.
    + right. exists err. cbn. by rewrite Hline.
    + left. exists (d :: ds). by constructor.
  - right. destruct (json_Unmarshal line) as [err'|d] eqn:Hline.
    + exists err'. cbn. by rewrite Hline.
    + exists err. cbn. by rewrite Hline, RDJSONLParser_decode_acc, Herr.
Qed.

(** X7. All or nothing: [Parse] returns either no error and one result for
    every line of the stream, or an error and no result at all. *)
Theorem RDJSONLParser_Parse_all_or_nothing (r : io.Reader) :
  exists (rs : list CheckResult) (err : option error),
    Parse r = Some (rs, err)
    /\ match err with
       | None => length rs = length (bufio.lines r)
       | Some _ => rs = []
       end.
Proof.
  rewrite RDJSONLParser_Parse_lines.
  destruct (RDJSONLParser_decode_cases (bufio.lines r)) as [[ds Hds]|[err Herr]].
  - rewrite (RDJSONLParser_decode_ok _ ds) by done.
    eexists _, None. split; [done|]. cbn [app].
    rewrite length_zip_with. apply Forall2_length in Hds. lia.
  - rewrite Herr. by eexists [], (Some err).
Qed.

(** X8. In a successful call every result carries exactly one line; that
    line has no line feed in it and is shorter than the scanner's buffer, and
    the diagnostic of the result is what this line decodes to. *)
Theorem RDJSONLParser_Parse_result_line (r : io.Reader) (rs : list CheckResult)
    (res : CheckResult) :
  Parse r = Some (rs, None) ->
  res ∈ rs ->
  exists line,
    Lines res = [line]
    /\ json_Unmarshal line = inr (Diagnostic res)
    /\ bufio.cut LF line = (line, None)
    /\ bufio.shorter line bufio.MaxScanTokenSize = true.
Proof.
  rewrite RDJSONLParser_Parse_lines.
  destruct (RDJSONLParser_decode_cases (bufio.lines r)) as [[ds Hds]|[err Herr]];
    [|by rewrite Herr].
  rewrite (RDJSONLParser_decode_ok _ ds) by done. intros [= <-].
  intros (i & Hres)%list_elem_of_lookup.
  apply lookup_zip_with_Some in Hres as (d & line & -> & Hd & Hline).
  exists line. cbn. split; [done|].
  split; [by eapply Forall2_lookup_lr in Hds|].
  pose proof (bufio_lines_fit r) as Hfit.
  by apply (Forall_lookup_1 _ _ _ _ Hfit Hline).
Qed.

(** X9. Parsing composes at a line boundary: after lines that fit the
    scanner and decode, the call goes on as on the rest of the stream, with
    the results of these lines in front of its results, and with its error
    and no result when the rest fails. *)
Theorem RDJSONLParser_Parse_app (ls : list string) (ds : list rdf.Diagnostic)
    (rest : string) (e : option error) :
  Forall (fun l => fits l = true) ls ->
  Forall2 (fun line d => json_Unmarshal line = inr d) ls ds ->
  Parse {| io.data := unlines ls +:+ rest; io.err := e |}
  = match Parse {| io.data := rest; io.err := e |} with
    | Some (rs, None) =>
        Some (zip_with (fun d line => {| Diagnostic := d; Lines := [line] |}) ds ls ++ rs,
              None)
    | other => other
    end.
Proof.
  intros Hfit Hds. rewrite !RDJSONLParser_Parse_lines.
  rewrite bufio_lines_unlines_app by done.
  set (tail := bufio.lines _). clearbody tail.
  assert (forall results, decode (ls ++ tail) results
            = decode tail (results ++ zip_with
                (fun d line => {| Diagnostic := d; Lines := [line] |}) ds ls)) as ->.
  { induction Hds as [|line d ls ds Hd _ IH]; intros results; cbn.
    - by rewrite app_nil_r.
    - apply Forall_cons in Hfit as [_ Hfit].
      rewrite Hd, IH by done. by rewrite <- app_assoc. }
  rewrite RDJSONLParser_decode_acc. cbn.
  by destruct (decode tail []) as [rs [err|]].
Qed.

(** X10. Lines ended by a carriage return and a line feed parse as the same
    lines ended by a line feed: the carriage return is no part of the line
    that is decoded and echoed. *)
Theorem RDJSONLParser_Parse_crlf (ls : list string) (e : option error) :
  Forall (fun l => fits l = true
                   /\ bufio.shorter (l +:+ String CR "") bufio.MaxScanTokenSize = true) ls ->
  Parse {| io.data := unlines_crlf ls; io.err := e |}
  = Parse {| io.data := unlines ls; io.err := e |}.
Proof.
  intros Hls. rewrite !RDJSONLParser_Parse_lines.
  rewrite bufio_lines_unlines_crlf, bufio_lines_unlines; [done|..].
  - eapply Forall_impl; [done|]. by intros l [? _].
  - eapply Forall_impl; [done|]. intros l [(? & _ & _)%fits_spec ?]. done.
Qed.

(** *** More on the checkstyle parser *)

(** X11. When the line and column attributes of every error are in the
    int32 range, nothing is lost: each result holds the line and column of
    its error as they are, and its text spells out the path, line, column and
    message of its own diagnostic. *)
Theorem CheckStyleParser_Parse_exact (r : io.Reader) (cs : CheckStyleResult) :
  xml_Decode r = inr cs ->
  Forall (fun file =>
            Forall (fun cerr => is_int32 (CheckStyleError_Line cerr)
                                /\ is_int32 (CheckStyleError_Column cerr))
                   (CheckStyleFile_Errors file))
         (CheckStyleResult_Files cs) ->
  CheckStyleParser_Parse xml_Decode r
  = (file ← CheckStyleResult_Files cs;
     (fun cerr =>
        let path := CheckStyleFile_Name file in
        let line := CheckStyleError_Line cerr in
        let col := CheckStyleError_Column cerr in
        let message := CheckStyleError_Message cerr in
        {| Diagnostic := located path line col message;
           Lines :=
             [ path +:+ ":" +:+ pretty line +:+ ":" +:+ pretty col
               +:+ ": " +:+ CheckStyleError_Severity cerr
               +:+ ": " +:+ message
               +:+ " (" +:+ CheckStyleError_Source cerr +:+ ")" ] |})
     <$> CheckStyleFile_Errors file,
     None).
Proof.
  intros Hdecode Hrange. unfold CheckStyleParser_Parse. rewrite Hdecode. f_equal.
  rewrite (foldl_snoc_nested CheckStyleFile_Errors), app_nil_l.
  induction Hrange as [|file files Hfile _ IH]; [done|].
  cbn [mbind list_bind]. rewrite IH. f_equal.
  apply Forall_fmap_ext_1. eapply Forall_impl; [exact Hfile|].
  intros cerr [Hline Hcol]. cbv zeta. by rewrite (int32_small _ Hline), (int32_small _ Hcol).
Qed.

(** X12. The checkstyle parser flattens files one after the other: the
    results for a document whose files are those of a first document
    followed by those of a second are the results for the first followed by
    the results for the second. *)
Theorem CheckStyleParser_Parse_app (r r1 r2 : io.Reader) (cs cs1 cs2 : CheckStyleResult) :
  xml_Decode r = inr cs ->
  xml_Decode r1 = inr cs1 ->
  xml_Decode r2 = inr cs2 ->
  CheckStyleResult_Files cs = CheckStyleResult_Files cs1 ++ CheckStyleResult_Files cs2 ->
  CheckStyleParser_Parse xml_Decode r
  = ((CheckStyleParser_Parse xml_Decode r1).1 ++ (CheckStyleParser_Parse xml_Decode r2).1,
     None).
Proof.
  intros Hr Hr1 Hr2 Hfiles. unfold CheckStyleParser_Parse.
  rewrite Hr, Hr1, Hr2, Hfiles. cbn [fst]. f_equal.
  rewrite !(foldl_snoc_nested CheckStyleFile_Errors), !app_nil_l.
  apply bind_app.
Qed.

(** *** More on the errorformat parser *)

(** X13. When the line and column numbers of the valid entries are in the
    int32 range, nothing is lost: the results hold the numbers of the
    entries as they are. *)
Theorem ErrorformatParser_Parse_exact (p : ErrorformatParser errorformat_Errorformat)
    (r : io.Reader) :
  Forall (fun e => errorformat.Valid e = true ->
                   is_int32 (errorformat.Lnum e) /\ is_int32 (errorformat.Col e))
         (errorformat_Scan (efm p) r) ->
  ErrorformatParser_Parse errorformat_Scan p r
  = ((fun e =>
        {| Diagnostic :=
             located (errorformat.Filename e) (errorformat.Lnum e)
                     (errorformat.Col e) (errorformat.Text e);
           Lines := errorformat.Lines e |})
     <$> filter (fun e => errorformat.Valid e) (errorformat_Scan (efm p) r),
     None).
Proof.
  intros Hrange. unfold ErrorformatParser_Parse. f_equal.
  rewrite (foldl_snoc_if errorformat.Valid), app_nil_l.
  apply Forall_fmap_ext_1, Forall_forall.
  intros e [Hvalid He]%list_elem_of_filter.
  rewrite Forall_forall in Hrange.
  destruct (Hrange e He) as [Hline Hcol]; [by apply Is_true_true|].
  by rewrite (int32_small _ Hline), (int32_small _ Hcol).
Qed.

(** *** More on the factory *)

(** X14. The two built-in names are served before the catalog is looked at:
    with no errorformat they give the checkstyle parser and the line-delimited
    parser, whatever the catalog holds under these names. *)
Theorem NewParser_builtin (opt : ParserOpt) :
  Errorformat opt = [] ->
  (FormatName opt = "checkstyle" ->
   NewParser errorformat_NewErrorformat fmts_DefinedFmts opt
   = (CheckStyleParser_ptr, None, opt))
  /\ (FormatName opt = "rdjsonl" ->
      NewParser errorformat_NewErrorformat fmts_DefinedFmts opt
      = (RDJSONLParser_ptr, None, opt)).
Proof.
  intros Hefm. unfold NewParser. rewrite Hefm.
  split; intros ->; cbn; by rewrite andb_false_r.
Qed.

(** X15. A catalog name stands for its rules: the parser and the error are
    those of the call that gives the rules of the catalog entry and no name. *)
Theorem NewParser_catalog (opt : ParserOpt) (entry : fmts.Fmt) :
  FormatName opt <> "" ->
  Errorformat opt = [] ->
  FormatName opt <> "checkstyle" ->
  FormatName opt <> "rdjsonl" ->
  fmts_DefinedFmts !! FormatName opt = Some entry ->
  (NewParser errorformat_NewErrorformat fmts_DefinedFmts opt).1
  = (NewParser errorformat_NewErrorformat fmts_DefinedFmts
       {| FormatName := ""; Errorformat := fmts.Errorformat entry |}).1.
Proof.
  intros Hname Hefm Hcs Hrd Hcat. unfold NewParser.
  rewrite Hefm, (bool_decide_eq_true_2 _ Hname), Hcat. cbn.
  rewrite !decide_False by done.
  rewrite (bool_decide_eq_false_2 ("" <> "")) by (intros H; by apply H). cbn.
  rewrite (bool_decide_eq_false_2 (0 < 0)) by lia.
  destruct (bool_decide _); [done|].
  by destruct (NewErrorformatParserString _ _ _).
Qed.

(** X16. The options a call on a catalog name leaves behind are refused by
    the next call: they hold the name and the rules of the catalog entry, which
    is the configuration conflict. *)
Theorem NewParser_twice (opt : ParserOpt) (entry : fmts.Fmt) :
  FormatName opt <> "" ->
  Errorformat opt = [] ->
  FormatName opt <> "checkstyle" ->
  FormatName opt <> "rdjsonl" ->
  fmts_DefinedFmts !! FormatName opt = Some entry ->
  fmts.Errorformat entry <> [] ->
  let opt' := (NewParser errorformat_NewErrorformat fmts_DefinedFmts opt).2 in
  NewParser errorformat_NewErrorformat fmts_DefinedFmts opt'
  = (nil_Parser, Some ConfigurationConflict, opt').
Proof.
  intros Hname Hefm Hcs Hrd Hcat Hrules opt'.
  assert (opt' = {| FormatName := FormatName opt; Errorformat := fmts.Errorformat entry |})
    as ->.
  { unfold opt', NewParser.
    rewrite Hefm, (bool_decide_eq_true_2 _ Hname), Hcat. cbn.
    rewrite (bool_decide_eq_false_2 (0 < 0)) by lia.
    rewrite !decide_False by done.
    destruct (bool_decide _); [done|].
    by destruct (NewErrorformatParserString _ _ _). }
  unfold NewParser. cbn.
  rewrite (bool_decide_eq_true_2 _ Hname).
  rewrite (bool_decide_eq_true_2 (0 < _)); [done|].
  destruct (fmts.Errorformat entry); [done|cbn; lia].
Qed.

(** X20. Rules that do not compile: the error of the engine is passed on as
    it is, and what is returned with it as the parser is not the nil
    interface value but a nil pointer to an errorformat parser. *)
Theorem NewParser_compile_error (opt : ParserOpt) (err : error) :
  FormatName opt = "" ->
  Errorformat opt <> [] ->
  errorformat_NewErrorformat (Errorformat opt) = inl err ->
  NewParser errorformat_NewErrorformat fmts_DefinedFmts opt
  = (ErrorformatParser_ptr None, Some err, opt)
  /\ ErrorformatParser_ptr None <> @nil_Parser errorformat_Errorformat.
Proof.
  destruct opt as [name [|rule rules]]; cbn; intros -> Hefm Hcompile; [done|].
  split; [|done]. unfold NewParser, NewErrorformatParserString. cbn.
  rewrite (bool_decide_eq_false_2 ("" <> "")) by (intros H; by apply H).
  cbn. by rewrite Hcompile.
Qed.

(** X17. [Parse] returns no error exactly when every line of the stream
    decodes; the lines of its results, taken in order, are then the lines of
    the stream. *)
Theorem RDJSONLParser_Parse_success (r : io.Reader) :
  ((exists rs, Parse r = Some (rs, None))
   <-> Forall (fun line => exists d, json_Unmarshal line = inr d) (bufio.lines r))
  /\ (forall rs, Parse r = Some (rs, None) -> rs ≫= Lines = bufio.lines r).
Proof.
  rewrite RDJSONLParser_Parse_lines.
  destruct (RDJSONLParser_decode_cases (bufio.lines r)) as [[ds Hds]|[err Herr]].
  - rewrite (RDJSONLParser_decode_ok _ ds) by done. cbn [app]. split.
    + split; [intros _|by eexists].
      eapply Forall2_Forall_l; [exact Hds|]. apply Forall_true. by eauto.
    + intros rs [= <-]. clear -Hds.
      induction Hds as [|line d ls ds _ _ IH]; [done|]. cbn. by rewrite IH.
  - rewrite Herr. split; [|done]. split; [by intros [rs [=]]|].
    intros [ds Hds]%Forall_decodes.
    by rewrite (RDJSONLParser_decode_ok _ ds) in Herr.
Qed.

(** X18. The call fails at the first line that does not decode, whatever
    follows it in the stream: the rest is not looked at, be it well formed,
    malformed or too long for the scanner. *)
Theorem RDJSONLParser_Parse_fail_fast (pre : list string) (bad rest : string)
    (err : error) (e : option error) :
  Forall (fun l => fits l = true) pre ->
  Forall (fun line => exists d, json_Unmarshal line = inr d) pre ->
  fits bad = true ->
  json_Unmarshal bad = inl err ->
  Parse {| io.data := unlines (pre ++ [bad]) +:+ rest; io.err := e |}
  = Some ([], Some err).
Proof.
  intros Hfit Hpre Hbad Herr.
  rewrite RDJSONLParser_Parse_lines, bufio_lines_unlines_app.
  - rewrite <- app_assoc. by apply f_equal, RDJSONLParser_decode_fail.
  - apply Forall_app. split; [done|]. by constructor.
Qed.

(** *** The factory and the parsers together *)

(** X19. The error of [NewParser] tells whether the parser may be called:
    with no error a call of [Parse] on the parser returns, and with an error
    it panics, the parser being nil or a nil pointer. *)
Theorem NewParser_callable (opt : ParserOpt) (r : io.Reader) :
  let '(p, err, _) := NewParser errorformat_NewErrorformat fmts_DefinedFmts opt in
  let call := Parser_Parse errorformat_Scan xml_Decode json_Unmarshal p r in
  match err with
  | None => exists rs e, call = Some (Return rs e)
  | Some _ => call = Some Panic
  end.
Proof.
  assert (forall p, exists rs e,
    Parser_Parse errorformat_Scan xml_Decode json_Unmarshal (ErrorformatParser_ptr (Some p)) r
    = Some (Return rs e)) as Hefm.
  { intros p. cbn. destruct (ErrorformatParser_Parse errorformat_Scan p r) as [rs e]. by eauto. }
  assert (exists rs e,
    Parser_Parse errorformat_Scan xml_Decode json_Unmarshal CheckStyleParser_ptr r
    = Some (Return rs e)) as Hcs.
  { cbn. destruct (CheckStyleParser_Parse xml_Decode r) as [rs e]. by eauto. }
  assert (exists rs e,
    Parser_Parse errorformat_Scan xml_Decode json_Unmarshal RDJSONLParser_ptr r
    = Some (Return rs e)) as Hrd.
  { unfold Parser_Parse. rewrite RDJSONLParser_Parse_lines.
    destruct (decode (bufio.lines r) []) as [rs e]. by eauto. }
  unfold NewParser, NewErrorformatParserString.
  repeat (case_bool_decide || case_decide || case_match); simplify_eq; try done; auto.
Qed.

End Properties.

(** ** Examples *)

Module examples.

Import sample.

(** The checkstyle document of the specification's example gives its one
    result. *)
Lemma checkstyle_document :
  CheckStyleParser_Parse xml_Decode (io.NewReader document)
  = ([ {| Diagnostic := located "a.go" 3 5 "unused var";
          Lines := ["a.go:3:5: error: unused var (lint/unused)"] |} ],
     None).
Proof.
  destruct (CheckStyleParser_Parse_flattens xml_Decode (io.NewReader document) tree)
    as (rs & Hparse & Hrs & _); [reflexivity|].
  rewrite Hparse, Hrs. reflexivity.
Defined.

(** Two records on two lines give two results, also when the second line
    goes without its line feed. *)
Lemma two_records :
  (exists rs,
     RDJSONLParser_Parse json_Unmarshal
       (io.NewReader (unlines [record "unused var"; record "missing return"]))
     = Some (rs, None)
     /\ length rs = 2)
  /\ (exists rs,
        RDJSONLParser_Parse json_Unmarshal
          (io.NewReader (unlines [record "unused var"] +:+ record "missing return"))
        = Some (rs, None)
        /\ length rs = 2).
Proof.
  split.
  - destruct (RDJSONLParser_Parse_well_formed json_Unmarshal
                [record "unused var"; record "missing return"]
                (unlines [record "unused var"; record "missing return"]) None)
      as (rs & Hparse & Hlen & _).
    + repeat constructor.
    + repeat constructor; eexists; vm_compute; reflexivity.
    + by left.
    + exists rs. split; [exact Hparse|exact Hlen].
  - destruct (RDJSONLParser_Parse_well_formed json_Unmarshal
                [record "unused var"; record "missing return"]
                (unlines [record "unused var"] +:+ record "missing return") None)
      as (rs & Hparse & Hlen & _).
    + repeat constructor.
    + repeat constructor; eexists; vm_compute; reflexivity.
    + right. exists [record "unused var"], (record "missing return").
      split; [reflexivity|]. split; [discriminate|reflexivity].
    + exists rs. split; [exact Hparse|exact Hlen].
Defined.

(** A built-in name together with an errorformat is refused. *)
Lemma conflict_with_builtin :
  NewParser NewErrorformat DefinedFmts
    {| FormatName := "checkstyle"; Errorformat := ["%f:%l:%c: %m"] |}
  = (nil_Parser, Some ConfigurationConflict,
     {| FormatName := "checkstyle"; Errorformat := ["%f:%l:%c: %m"] |}).
Proof. apply NewParser_conflict; done. Defined.


(** A stream without a line that matches, read from a reader that fails. *)
Lemma no_match_no_error :
  ErrorformatParser_Parse Scan {| efm := ["%f:%l:%c: %m"] |} (failing (unlines ["junk"]))
  = ([], None).
Proof.
  pose proof (ErrorformatParser_Parse_no_error (list string) Scan
                {| efm := ["%f:%l:%c: %m"] |} (failing (unlines ["junk"])))
    as [Herr Hnone].
  destruct (ErrorformatParser_Parse _ _ _) as [rs err]. cbn in *.
  rewrite Herr, Hnone; [reflexivity|].
  repeat constructor.
Defined.


(** A blank line after a record: the scanner delivers it, as the empty line,
    and the decoder refuses it. *)
Lemma blank_trailing_line :
  bufio.lines (io.NewReader (record "unused var" +:+ nl +:+ nl))
  = [record "unused var"; ""]
  /\ RDJSONLParser_Parse json_Unmarshal (io.NewReader (record "unused var" +:+ nl +:+ nl))
     = Some ([], Some unexpected_end).
Proof. split; vm_compute; reflexivity. Qed.

(** A record followed by a blank line and by a second record, and a record
    with and without the line feed after it. *)
Lemma final_line_feed :
  RDJSONLParser_Parse json_Unmarshal
    (io.NewReader (unlines [record "unused var"] +:+ String LF (record "missing return")))
  = Some ([], Some unexpected_end)
  /\ RDJSONLParser_Parse json_Unmarshal (io.NewReader (record "unused var" +:+ nl))
     = RDJSONLParser_Parse json_Unmarshal (io.NewReader (record "unused var")).
Proof.
  destruct (RDJSONLParser_Parse_blank_lines json_Unmarshal
              [record "unused var"] [message "unused var"] (record "missing return")
              (json_head +:+ "unused var" +:+ String DQ "") "}" None)
    as [Hblank Hfinal].
  split.
  - destruct Hblank as (_ & Hparse & _).
    + repeat constructor.
    + repeat constructor.
    + exact Hparse.
  - by apply Hfinal.
Defined.

(** A name the catalog does not have. *)
Lemma unknown_name :
  NewParser NewErrorformat DefinedFmts {| FormatName := "nosuchlint"; Errorformat := [] |}
  = (nil_Parser, Some (UnsupportedFormat "nosuchlint"),
     {| FormatName := "nosuchlint"; Errorformat := [] |}).
Proof. apply NewParser_unsupported; done. Defined.

(** No name and no errorformat. *)
Lemma nothing_given :
  NewParser NewErrorformat DefinedFmts {| FormatName := ""; Errorformat := [] |}
  = (nil_Parser, Some EmptyFormat, {| FormatName := ""; Errorformat := [] |}).
Proof. apply NewParser_empty; done. Defined.

(** One rule and no name. *)
Lemma one_rule :
  NewParser NewErrorformat DefinedFmts {| FormatName := ""; Errorformat := ["%f:%l:%c: %m"] |}
  = (ErrorformatParser_ptr (Some {| efm := ["%f:%l:%c: %m"] |}), None,
     {| FormatName := ""; Errorformat := ["%f:%l:%c: %m"] |}).
Proof. apply NewParser_errorformat; done. Defined.

(** The catalog entry of golint ends up in the caller's options. *)
Lemma golint_overwrites_errorformat :
  Errorformat {| FormatName := "golint"; Errorformat := [] |} = []
  /\ Errorformat
       (NewParser NewErrorformat DefinedFmts
          {| FormatName := "golint"; Errorformat := [] |}).2
     = ["%f:%l:%c: %m"].
Proof. split; vm_compute; reflexivity. Qed.



(** Three records, each on a line of its own, from a reader that fails after
    them. *)
Lemma three_records :
  RDJSONLParser_Parse json_Unmarshal
    (failing (unlines [record "a"; record "b"; record "c"]))
  = Some ([ {| Diagnostic := message "a"; Lines := [record "a"] |};
            {| Diagnostic := message "b"; Lines := [record "b"] |};
            {| Diagnostic := message "c"; Lines := [record "c"] |} ],
          None).
Proof.
  unfold failing.
  rewrite (RDJSONLParser_Parse_unlines json_Unmarshal _ [message "a"; message "b"; message "c"]).
  - reflexivity.
  - repeat constructor.
  - repeat constructor.
Defined.

(** A text repeated has no line feed when the text has none, and its length
    is a multiple of the length of the text. *)
Lemma cut_doubled (k : nat) (s : string) :
  bufio.cut LF s = (s, None) -> bufio.cut LF (doubled k s) = (doubled k s, None).
Proof.
  intros Hs. induction k as [|k IH]; [done|].
  cbn [doubled]. by rewrite (bufio_cut_app_none _ _ _ IH), IH.
Qed.

Lemma length_doubled (k : nat) (s : string) :
  N.of_nat (String.length (doubled k s))
  = (2 ^ N.of_nat k * N.of_nat (String.length s))%N.
Proof.
  induction k as [|k IH]; cbn [doubled].
  - change (N.of_nat 0) with 0%N. rewrite N.pow_0_r. lia.
  - rewrite string_app_length, Nat2N.inj_add, IH, Nat2N.inj_succ, N.pow_succ_r'. lia.
Qed.

(** A record of more than 64 KiB between two short ones: the call returns
    the first record and no error. *)
Lemma long_record_ends_scan :
  RDJSONLParser_Parse json_Unmarshal
    (io.NewReader (unlines [record "unused var"] +:+ record long_message
                   +:+ unlines [record "missing return"]))
  = Some ([ {| Diagnostic := message "unused var"; Lines := [record "unused var"] |} ],
          None).
Proof.
  etrans; [apply (RDJSONLParser_Parse_too_long json_Unmarshal
                    [record "unused var"] (record long_message))|].
  - repeat constructor.
  - unfold record.
    rewrite (bufio_cut_app_none _ json_head) by reflexivity.
    rewrite (bufio_cut_app_none _ long_message) by (by apply cut_doubled).
    reflexivity.
  - apply not_true_iff_false. rewrite bufio_shorter_spec.
    unfold record, long_message, bufio.MaxScanTokenSize.
    rewrite !string_app_length, !Nat2N.inj_add, length_doubled.
    change (2 ^ N.of_nat 16)%N with 65536%N.
    change (String.length "a") with 1. lia.
  - reflexivity.
Defined.

(** The result of a record: its line has no line feed and decodes to its
    diagnostic. *)
Lemma record_result_line :
  exists line,
    [record "unused var"] = [line]
    /\ json_Unmarshal line = inr (message "unused var")
    /\ bufio.cut LF line = (line, None)
    /\ bufio.shorter line bufio.MaxScanTokenSize = true.
Proof.
  apply (RDJSONLParser_Parse_result_line json_Unmarshal
           (io.NewReader (unlines [record "unused var"]))
           [ {| Diagnostic := message "unused var"; Lines := [record "unused var"] |} ]
           {| Diagnostic := message "unused var"; Lines := [record "unused var"] |}).
  - vm_compute; reflexivity.
  - apply list_elem_of_here.
Defined.

(** Two streams of one record each, one after the other. *)
Lemma records_one_after_the_other :
  RDJSONLParser_Parse json_Unmarshal
    (io.NewReader (unlines [record "unused var"] +:+ unlines [record "missing return"]))
  = Some ([ {| Diagnostic := message "unused var"; Lines := [record "unused var"] |};
            {| Diagnostic := message "missing return"; Lines := [record "missing return"] |} ],
          None).
Proof.
  unfold io.NewReader.
  rewrite (RDJSONLParser_Parse_app json_Unmarshal _ [message "unused var"]).
  - vm_compute; reflexivity.
  - repeat constructor.
  - repeat constructor.
Defined.

(** Two records on lines that end with a carriage return and a line feed. *)
Lemma records_crlf :
  RDJSONLParser_Parse json_Unmarshal
    (io.NewReader (unlines_crlf [record "unused var"; record "missing return"]))
  = RDJSONLParser_Parse json_Unmarshal
      (io.NewReader (unlines [record "unused var"; record "missing return"])).
Proof. apply RDJSONLParser_Parse_crlf. repeat constructor. Defined.

(** The document of the specification's example has its numbers in the int32
    range. *)
Lemma checkstyle_document_exact :
  CheckStyleParser_Parse xml_Decode (io.NewReader document)
  = ([ {| Diagnostic := located "a.go" 3 5 "unused var";
          Lines := ["a.go:3:5: error: unused var (lint/unused)"] |} ],
     None).
Proof.
  rewrite (CheckStyleParser_Parse_exact xml_Decode _ tree).
  - reflexivity.
  - reflexivity.
  - repeat constructor; done.
Defined.

(** A document with two files gives the results of the one and then of the
    other. *)
Lemma checkstyle_two_files :
  CheckStyleParser_Parse xml_Decode_files
    (io.NewReader ("<checkstyle>" +:+ file_a +:+ file_b +:+ "</checkstyle>"))
  = ([ {| Diagnostic := located "a.go" 3 5 "unused var";
          Lines := ["a.go:3:5: error: unused var (lint/unused)"] |};
       {| Diagnostic := located "b.go" 7 0 "missing return";
          Lines := ["b.go:7:0: : missing return ()"] |} ],
     None).
Proof.
  rewrite (CheckStyleParser_Parse_app xml_Decode_files _
             (io.NewReader ("<checkstyle>" +:+ file_a +:+ "</checkstyle>"))
             (io.NewReader ("<checkstyle>" +:+ file_b +:+ "</checkstyle>"))
             tree_ab tree tree_b); reflexivity.
Defined.

(** The rule and the line of the specification's example, followed by a line
    that does not match. *)
Lemma errorformat_example :
  ErrorformatParser_Parse Scan {| efm := ["%f:%l:%c: %m"] |}
    (io.NewReader (unlines ["main.go:10:2: missing return"; "junk"]))
  = ([ {| Diagnostic := located "main.go" 10 2 "missing return";
          Lines := ["main.go:10:2: missing return"] |} ],
     None).
Proof.
  rewrite ErrorformatParser_Parse_exact.
  - reflexivity.
  - replace (Scan _ _) with (entry <$> ["main.go:10:2: missing return"; "junk"])
      by (vm_compute; reflexivity).
    repeat constructor; done.
Defined.

(** The built-in names, in a catalog that has entries of the same names. *)
Lemma builtin_names :
  NewParser NewErrorformat
    (<["checkstyle" := golint]> (<["rdjsonl" := golint]> DefinedFmts))
    {| FormatName := "checkstyle"; Errorformat := [] |}
  = (CheckStyleParser_ptr, None, {| FormatName := "checkstyle"; Errorformat := [] |})
  /\ NewParser NewErrorformat
       (<["checkstyle" := golint]> (<["rdjsonl" := golint]> DefinedFmts))
       {| FormatName := "rdjsonl"; Errorformat := [] |}
     = (RDJSONLParser_ptr, None, {| FormatName := "rdjsonl"; Errorformat := [] |}).
Proof.
  split.
  - by apply NewParser_builtin.
  - by apply NewParser_builtin.
Defined.

(** The name golint and the rules of golint give the same parser. *)
Lemma golint_by_name :
  (NewParser NewErrorformat DefinedFmts {| FormatName := "golint"; Errorformat := [] |}).1
  = (NewParser NewErrorformat DefinedFmts
       {| FormatName := ""; Errorformat := ["%f:%l:%c: %m"] |}).1.
Proof. by apply (NewParser_catalog _ NewErrorformat DefinedFmts _ golint). Defined.

(** The options left by a call on the name golint are refused. *)
Lemma golint_twice :
  NewParser NewErrorformat DefinedFmts
    (NewParser NewErrorformat DefinedFmts {| FormatName := "golint"; Errorformat := [] |}).2
  = (nil_Parser, Some ConfigurationConflict,
     {| FormatName := "golint"; Errorformat := ["%f:%l:%c: %m"] |}).
Proof.
  by rewrite (NewParser_twice _ NewErrorformat DefinedFmts
                {| FormatName := "golint"; Errorformat := [] |} golint).
Defined.

(** A line that is no record, with a record of more than 64 KiB after it. *)
Lemma malformed_before_long_record :
  RDJSONLParser_Parse json_Unmarshal
    (io.NewReader (unlines ([record "unused var"] ++ ["oops"]) +:+ record long_message))
  = Some ([], Some syntax_error).
Proof.
  apply RDJSONLParser_Parse_fail_fast.
  - repeat constructor.
  - repeat constructor. by eexists.
  - reflexivity.
  - reflexivity.
Defined.

(** A rule list that the engine refuses. *)
Lemma refused_rules :
  NewParser NewErrorformat_checked DefinedFmts {| FormatName := ""; Errorformat := [""] |}
  = (ErrorformatParser_ptr None, Some (library_error "errorformat" "empty rule"),
     {| FormatName := ""; Errorformat := [""] |}).
Proof. by apply NewParser_compile_error. Defined.

(** The lines of two results, and the lines of their stream. *)
Lemma echoed_lines :
  [ {| Diagnostic := message "unused var"; Lines := [record "unused var"] |};
    {| Diagnostic := message "missing return"; Lines := [record "missing return"] |} ]
  ≫= Lines
  = bufio.lines (io.NewReader (unlines [record "unused var"; record "missing return"])).
Proof.
  apply (proj2 (RDJSONLParser_Parse_success json_Unmarshal _)).
  vm_compute; reflexivity.
Defined.

(** The record of the long message is well formed, has no line feed and
    does not fit the scanner. *)
Lemma strip_app (p s : string) : strip p (p +:+ s) = Some s.
Proof. induction p as [|c p IH]; [done|]. cbn. by rewrite decide_True. Qed.

Lemma plain_app (a b : string) : plain (a +:+ b) = plain a && plain b.
Proof. induction a as [|c a IH]; [done|]. cbn. by rewrite IH, andb_assoc. Qed.

Lemma plain_doubled (k : nat) (s : string) :
  plain s = true -> plain (doubled k s) = true.
Proof.
  intros Hs. induction k as [|k IH]; [done|].
  cbn [doubled]. by rewrite plain_app, IH.
Qed.

Lemma cut_DQ_doubled (k : nat) (s : string) :
  bufio.cut DQ s = (s, None) -> bufio.cut DQ (doubled k s) = (doubled k s, None).
Proof.
  intros Hs. induction k as [|k IH]; [done|].
  cbn [doubled]. by rewrite (bufio_cut_app_none _ _ _ IH), IH.
Qed.

Lemma long_record_decodes :
  json_Unmarshal (record long_message) = inr (message long_message).
Proof.
  unfold json_Unmarshal, record. rewrite strip_app.
  rewrite (bufio_cut_app_none DQ long_message) by (by apply cut_DQ_doubled).
  change (bufio.cut DQ json_tail) with (EmptyString, Some "}").
  cbn [fst snd]. rewrite string_app_nil_r.
  assert (plain long_message = true) as -> by (by apply plain_doubled).
  by rewrite decide_True.
Qed.

Lemma long_record_cut :
  bufio.cut LF (record long_message) = (record long_message, None).
Proof.
  unfold record.
  rewrite (bufio_cut_app_none _ json_head) by reflexivity.
  rewrite (bufio_cut_app_none _ long_message) by (by apply cut_doubled).
  reflexivity.
Qed.

Lemma long_record_long :
  bufio.shorter (record long_message) bufio.MaxScanTokenSize = false.
Proof.
  apply not_true_iff_false. rewrite bufio_shorter_spec.
  unfold record, long_message, bufio.MaxScanTokenSize.
  rewrite !string_app_length, !Nat2N.inj_add, length_doubled.
  change (2 ^ N.of_nat 16)%N with 65536%N.
  change (String.length "a") with 1. lia.
Qed.

(** A document whose line and column numbers are beyond the int32 range:
    the start position is not the attributes, the line shows them. *)
Lemma checkstyle_wide_numbers :
  xml_Decode_wide (io.NewReader document_wide) = inr tree_wide
  /\ CheckStyleParser_Parse xml_Decode_wide (io.NewReader document_wide)
     = ([ {| Diagnostic := located "a.go" 3 (-2147483648) "unused var";
             Lines := ["a.go:4294967299:2147483648: error: unused var (lint/unused)"] |} ],
        None).
Proof. split; vm_compute; reflexivity. Qed.

(** A valid entry and an entry that is not valid. *)
Lemma valid_entry_kept :
  ErrorformatParser_Parse Scan {| efm := ["%f:%l:%c: %m"] |}
    (io.NewReader (unlines ["junk"; "main.go:10:2: missing return"]))
  = ([ {| Diagnostic := located "main.go" 10 2 "missing return";
          Lines := ["main.go:10:2: missing return"] |} ],
     None).
Proof.
  destruct (ErrorformatParser_Parse_valid_entries (list string) Scan
              {| efm := ["%f:%l:%c: %m"] |}
              (io.NewReader (unlines ["junk"; "main.go:10:2: missing return"])))
    as [Hparse Hexact].
  rewrite Hparse.
  replace (Scan _ _) with (entry <$> ["junk"; "main.go:10:2: missing return"])
    by (vm_compute; reflexivity).
  change (filter _ _) with [entry "main.go:10:2: missing return"].
  cbn [fmap list_fmap]. rewrite Hexact.
  - reflexivity.
  - unfold is_int32. vm_compute. by split.
  - unfold is_int32. vm_compute. by split.
Defined.

(** A valid entry whose line and column numbers are beyond the int32 range:
    the start position is not the numbers of the entry. *)
Lemma errorformat_wide_numbers :
  Scan_wide ["%f:%l:%c: %m"]
    (io.NewReader (unlines ["main.go:4294967306:2147483650: missing return"]))
  = [ {| errorformat.Filename := "main.go"; errorformat.Lnum := 4294967306;
         errorformat.Col := 2147483650; errorformat.Text := "missing return";
         errorformat.Valid := true;
         errorformat.Lines := ["main.go:4294967306:2147483650: missing return"] |} ]
  /\ ErrorformatParser_Parse Scan_wide {| efm := ["%f:%l:%c: %m"] |}
       (io.NewReader (unlines ["main.go:4294967306:2147483650: missing return"]))
     = ([ {| Diagnostic := located "main.go" 10 (-2147483646) "missing return";
             Lines := ["main.go:4294967306:2147483650: missing return"] |} ],
        None).
Proof. split; vm_compute; reflexivity. Qed.

(** One well-formed record of more than 64 KiB, on a line of its own: no
    result and no error. *)
Lemma long_record_alone :
  json_Unmarshal (record long_message) = inr (message long_message)
  /\ RDJSONLParser_Parse json_Unmarshal (io.NewReader (unlines [record long_message]))
     = Some ([], None).
Proof.
  split; [apply long_record_decodes|].
  rewrite RDJSONLParser_Parse_lines. unfold io.NewReader. cbn [unlines].
  rewrite bufio_lines_too_long; [reflexivity|apply long_record_cut|apply long_record_long].
Qed.



End examples.
